(** * Destination runtime of the action destinations kit

    A shallow embedding of [src/lib/destination-kit/index.ts] (the
    [Destination] class with [onEvent], [onSubscription], [testCredentials],
    [getSubscriptions] and [getDestinationSettings]) and of the part of
    [src/lib/context.ts] it writes to (the append-only [subscriptions] log).

    Conventions of the embedding:
    - a JavaScript object used as a dictionary is a [gmap string _];
      [undefined] is [None] in an [option];
    - a call that may throw returns a [Completion]; the promise of an [async]
      function settles to a [Completion] as well ([Ok] is fulfilment,
      [Throw] is rejection);
    - objects the caller hands over by reference ([context], [settings]) are
      passed in and their state after the call is part of the answer;
    - the concurrent fan-out of [onEvent] is modelled with event-loop ticks:
      every awaited [action.execute] carries the tick on which it settles. *)

From stdpp Require Import gmap strings list fin_maps pretty sorting.

Set Warnings "-register-all".

(** ** JSON values ([src/lib/json-object]) *)

(** Numbers are integers here: the runtime never computes with them. *)
Inductive JSONValue : Type :=
  | JNull
  | JBool (b : bool)
  | JNumber (n : Z)
  | JString (s : string)
  | JArray (l : list JSONValue)
  | JObject (m : gmap string JSONValue).

Abbreviation JSONObject := (gmap string JSONValue).
Abbreviation JSONArray := (list JSONValue).

(** The double-quote character, for the texts that contain one. *)
Definition dquote : string := String (Ascii.ascii_of_nat 34) EmptyString.

(** ** Errors and completions *)

Inductive JSError : Type :=
  | TypeError                      (* raised by the engine: property of null or
                                      undefined, call of something not a function *)
  | SyntaxError                    (* JSON.parse on a text that is not JSON *)
  | BadRequest (message : string)  (* http-errors' BadRequest *)
  | Error (message : string)      (* new Error(message) *)
  | Thrown (reason : JSONValue).   (* whatever a collaborator throws: a step, a
                                      probe, an extension, the predicate library *)

Inductive Completion (A : Type) : Type :=
  | Ok (a : A)
  | Throw (e : JSError).
Arguments Ok {A} a.
Arguments Throw {A} e.

Definition isThrow {A} (c : Completion A) : bool :=
  match c with Ok _ => false | Throw _ => true end.

(** ** JavaScript coercions and property reads *)

(** [String(v)], as used by the template literal of the error message and by
    the computed property key [this.partnerActions[actionSlug]]. *)
Fixpoint ToString (v : JSONValue) : string :=
  match v with
  | JNull => "null"
  | JBool true => "true"
  | JBool false => "false"
  | JNumber n => pretty n
  | JString s => s
  | JArray l =>
      String.concat ","
        (map (fun x => match x with JNull => "" | _ => ToString x end) l)
  | JObject _ => "[object Object]"
  end.

Definition ToPropertyKey (v : option JSONValue) : string :=
  match v with
  | None => "undefined"
  | Some v => ToString v
  end.

(** [v.k] for the property names the runtime reads ([subscribe],
    [partnerAction], [mapping]): none of them is a property of a string, a
    number, a boolean or an array, and reading a property of [null] throws. *)
Definition getProp (v : JSONValue) (k : string) : Completion (option JSONValue) :=
  match v with
  | JNull => Throw TypeError
  | JObject m => Ok (m !! k)
  | _ => Ok None
  end.

(** ** Steps, execute inputs, actions *)

(** A StepResult is the object [{ output: ... }]. *)
Abbreviation StepResult := (gmap string JSONValue).

Module ExecuteInput.
(** [{ payload, mapping, settings }]; [extras] holds any further key a step
    has written on the object. *)
Record t : Type := mk {
  payload : JSONObject;
  mapping : option JSONValue;
  settings : JSONObject;
  extras : JSONObject
}.
End ExecuteInput.

(** What [action.execute(input)] does: its promise settles [settledAt]
    ticks after the call (the method that awaits it resumes on the tick
    after), it may have rewritten the fields of the [input] object it was
    handed ([inputAfter]), and it fulfils with step results or rejects. *)
Record Execution : Type := {
  settledAt : nat;
  inputAfter : ExecuteInput.t;
  outcome : Completion (list StepResult)
}.

(** The [Action] class lives in [./action]; the runtime only calls
    [execute]. *)
Abbreviation Action := (ExecuteInput.t -> Execution).

(** The chain of options given to [got.extend], oldest first. *)
Definition Request : Type := list JSONObject.
Definition Extension : Type := ExecuteInput.t -> Completion JSONObject.

Record TestAuthOptions : Type := {
  auth_testCredentials : Request -> JSONObject -> Completion string
}.

Record TestAuth : Type := {
  type : string;
  options : TestAuthOptions
}.

Record DestinationConfig : Type := {
  name : string;
  defaultSubscriptions : JSONArray
}.

(** [partnerActions] holds the registered slugs; the properties a
    JavaScript object inherits ([constructor], [toString], ...) are not
    part of the model. *)
Record Destination : Type := {
  config : DestinationConfig;
  partnerActions : gmap string Action;
  requestExtensions : list Extension;
  settingsSchema : option JSONValue;
  auth : option TestAuth
}.

(** The constructor and the builder methods of the class. *)
Definition newDestination (config : DestinationConfig) : Destination :=
  {| config := config;
     partnerActions := ∅;
     requestExtensions := [];
     settingsSchema := None;
     auth := None |}.

Definition extendRequest (extensions : list Extension) (D : Destination) : Destination :=
  {| config := config D;
     partnerActions := partnerActions D;
     requestExtensions := requestExtensions D ++ extensions;
     settingsSchema := settingsSchema D;
     auth := auth D |}.

Definition validateSettings (schema : JSONValue) (D : Destination) : Destination :=
  {| config := config D;
     partnerActions := partnerActions D;
     requestExtensions := requestExtensions D;
     settingsSchema := Some schema;
     auth := auth D |}.

Definition apiKeyAuth (options : TestAuthOptions) (D : Destination) : Destination :=
  {| config := config D;
     partnerActions := partnerActions D;
     requestExtensions := requestExtensions D;
     settingsSchema := settingsSchema D;
     auth := Some {| type := "apiKey"; options := options |} |}.

(** [partnerAction(slug, actionFn)]: the action built by [actionFn] is
    stored under [slug]. *)
Definition partnerAction (slug : string) (action : Action) (D : Destination) : Destination :=
  {| config := config D;
     partnerActions := <[slug := action]> (partnerActions D);
     requestExtensions := requestExtensions D;
     settingsSchema := settingsSchema D;
     auth := auth D |}.

(** The same action on another schedule: what settled on tick [n] for an
    input settles on tick [reschedule input n] instead. *)
Definition rescheduled (reschedule : ExecuteInput.t -> nat -> nat) (action : Action) : Action :=
  fun input =>
    let run := action input in
    {| settledAt := reschedule input (settledAt run);
       inputAfter := inputAfter run;
       outcome := outcome run |}.

Definition onSchedule (reschedule : ExecuteInput.t -> nat -> nat) (D : Destination)
    : Destination :=
  {| config := config D;
     partnerActions := rescheduled reschedule <$> partnerActions D;
     requestExtensions := requestExtensions D;
     settingsSchema := settingsSchema D;
     auth := auth D |}.

(** ** The request context ([src/lib/context.ts]) *)

Module Subscriptions.
Record t : Type := mk {
  duration : nat;
  destination : string;
  action : option JSONValue;
  input : ExecuteInput.t;
  output : list StepResult
}.
End Subscriptions.

(** Of the fields of [Context] only the [subscriptions] log is written by the
    destination runtime. *)
Record Context : Type := {
  subscriptions : list Subscriptions.t
}.

(** A fresh context: [subscriptions: []]. *)
Definition emptyContext : Context := {| subscriptions := [] |}.

(** [context.append('subscriptions', value)]: [push] on the array. *)
Definition Context_append (context : Context) (value : Subscriptions.t) : Context :=
  {| subscriptions := subscriptions context ++ [value] |}.

Definition instrumentSubscription (context : Context) (input : Subscriptions.t) : Context :=
  Context_append context
    (Subscriptions.mk
       (Subscriptions.duration input)
       (Subscriptions.destination input)
       (Subscriptions.action input)
       (Subscriptions.input input)
       (Subscriptions.output input)).

(** ** Time ([src/lib/time]) *)

(** Modelled from the spec: [time] and [duration] of [../time] are not among
    the sources; the runtime must "measure wall-clock duration".  The clock
    is read in event-loop ticks and a duration is the difference of two
    readings. *)
Definition time (tick : nat) : nat := tick.
Definition duration (start stop : nat) : nat := stop - start.

(** ** Promises and the event loop *)

(** A promise together with the tick on which it settles.  Tick [0] is the
    synchronous fan-out itself. *)
Record Promise (A : Type) : Type := {
  settlesAt : nat;
  settlement : Completion A
}.
Arguments settlesAt {A} _.
Arguments settlement {A} _.

(** Stable insertion by tick: what settles on the same tick keeps its
    declaration order. *)
Fixpoint insertByTick {X} (tick : X -> nat) (x : X) (l : list X) : list X :=
  match l with
  | [] => [x]
  | y :: l' =>
      if decide (tick x <= tick y) then x :: y :: l'
      else y :: insertByTick tick x l'
  end.

Fixpoint completionOrder {X} (tick : X -> nat) (l : list X) : list X :=
  match l with
  | [] => []
  | x :: l' => insertByTick tick x (completionOrder tick l')
  end.

Fixpoint firstRejection {A} (l : list (Promise A)) : option JSError :=
  match l with
  | [] => None
  | p :: l' =>
      match settlement p with
      | Throw e => Some e
      | Ok _ => firstRejection l'
      end
  end.

Definition fulfilledValues {A} (l : list (Promise A)) : list A :=
  omap (fun p => match settlement p with Ok a => Some a | Throw _ => None end) l.

(** [Promise.all]: rejects with the reason of the first promise to reject
    (in completion order); otherwise fulfils with the values in the order of
    the array it was given. *)
Definition Promise_all {A} (promises : list (Promise A)) : Completion (list A) :=
  match firstRejection (completionOrder settlesAt promises) with
  | Some e => Throw e
  | None => Ok (fulfilledValues promises)
  end.

(** ** One subscription, cut at its [await] *)

(** The state of one [onSubscription] call when the synchronous fan-out of
    [onEvent] is over: it has returned or thrown already ([Done]), or it
    has called [action.execute(input)] and waits for it ([Awaiting]). *)
Inductive Task : Type :=
  | Done (r : Completion (list StepResult))
  | Awaiting (actionSlug : option JSONValue) (subscriptionStartedAt : nat)
             (input : ExecuteInput.t) (run : Execution).

(** The promise [onSubscription] returned, for [Promise.all]. *)
Definition Task_promise (t : Task) : Promise (list StepResult) :=
  match t with
  | Done r => {| settlesAt := 0; settlement := r |}
  | Awaiting _ _ _ run => {| settlesAt := S (settledAt run); settlement := outcome run |}
  end.

(** The [action.execute] call a task has made, if any: registry key and the
    input object handed over. *)
Definition Task_invocation (t : Task) : option (string * ExecuteInput.t) :=
  match t with
  | Done _ => None
  | Awaiting actionSlug _ input _ => Some (ToPropertyKey actionSlug, input)
  end.

(** What a call leaves behind: its completion, the two objects the caller
    passed by reference as they are once every task the call started has
    settled, and the [action.execute] calls made, in call order. *)
Record Run (A : Type) : Type := {
  result : Completion A;
  context_after : Context;
  settings_after : JSONObject;
  invoked : list (string * ExecuteInput.t)
}.
Arguments result {A} _.
Arguments context_after {A} _.
Arguments settings_after {A} _.
Arguments invoked {A} _.

Definition notSubscribed : StepResult := {[ "output" := JString "not subscribed" ]}.

Section Runtime.

(** [JSON.parse] of the platform. *)
Variable JSON_parse : string -> Completion JSONValue.

(** [validate] of [@segment/fab5-subscriptions]: does the predicate accept
    the event? *)
Variable validate : option JSONValue -> JSONObject -> Completion bool.

(** [new Validate(name, field, schema).executeStep(context)] of
    [./action]. *)
Variable Validate_executeStep :
  string -> string -> JSONValue -> ExecuteInput.t -> Completion StepResult.

(** The text that stands for a private setting in a record. *)
Variable placeholder : JSONValue.

(** Modelled from the spec: [redactSettings] of [../redact] is not among
    the sources.  "A list of field keys marked private must be redacted
    (replaced with a fixed placeholder) before any instrumentation record
    is persisted": every key of [privateSettings] that the settings hold
    gets the placeholder as its value. *)
Definition redactSettings (settings : JSONObject) (privateSettings : JSONArray) : JSONObject :=
  foldl (fun acc key =>
           match key with
           | JString k => alter (fun _ => placeholder) k acc
           | _ => acc
           end) settings privateSettings.

Definition getSubscriptions (settings : JSONObject) : Completion (option JSONValue) :=
  let subscriptions := settings !! "subscriptions" in
  match subscriptions with
  | Some (JString text) =>
      match JSON_parse text with
      | Ok parsedSubscriptions => Ok (Some parsedSubscriptions)
      | Throw e => Throw e
      end
  | _ => Ok subscriptions
  end.

Definition getDestinationSettings (settings : JSONObject) : JSONObject :=
  delete "subscriptions" settings.

(** [onSubscription] up to [await action.execute(input)]. *)
Definition onSubscription_start (D : Destination) (subscription : JSONValue)
    (event settings : JSONObject) : Task :=
  match getProp subscription "subscribe" with
  | Throw e => Done (Throw e)
  | Ok subscribe =>
      match validate subscribe event with
      | Throw e => Done (Throw e)
      | Ok false => Done (Ok [notSubscribed])
      | Ok true =>
          match getProp subscription "partnerAction" with
          | Throw e => Done (Throw e)
          | Ok actionSlug =>
              match partnerActions D !! ToPropertyKey actionSlug with
              | None =>
                  Done (Throw (BadRequest
                    (dquote +:+ ToPropertyKey actionSlug +:+ dquote
                       +:+ " is not a valid action")))
              | Some action =>
                  let subscriptionStartedAt := time 0 in
                  match getProp subscription "mapping" with
                  | Throw e => Done (Throw e)
                  | Ok mapping =>
                      let input := ExecuteInput.mk event mapping settings ∅ in
                      Awaiting actionSlug subscriptionStartedAt input (action input)
                  end
              end
          end
      end
  end.

(** [onSubscription] from the moment [action.execute(input)] has settled:
    a rejection is rethrown by the [await]; on fulfilment the record is
    appended and the results returned. *)
Definition onSubscription_resume (D : Destination) (context : Context)
    (settings : JSONObject) (privateSettings : JSONArray) (t : Task)
    : Completion (list StepResult) * Context :=
  match t with
  | Done r => (r, context)
  | Awaiting actionSlug subscriptionStartedAt _ run =>
      match outcome run with
      | Throw e => (Throw e, context)
      | Ok results =>
          let input := inputAfter run in
          let subscriptionEndedAt := time (S (settledAt run)) in
          let subscriptionDuration := duration subscriptionStartedAt subscriptionEndedAt in
          (Ok results,
           instrumentSubscription context
             (Subscriptions.mk subscriptionDuration (name (config D)) actionSlug
                (ExecuteInput.mk (ExecuteInput.payload input) (ExecuteInput.mapping input)
                   (redactSettings settings privateSettings) (ExecuteInput.extras input))
                results))
      end
  end.

(** The private method run on its own, from call to settlement. *)
Definition onSubscription (D : Destination) (context : Context)
    (subscription : JSONValue) (event settings : JSONObject)
    (privateSettings : JSONArray) : Run (list StepResult) :=
  let t := onSubscription_start D subscription event settings in
  let '(r, context') := onSubscription_resume D context settings privateSettings t in
  {| result := r; context_after := context'; settings_after := settings;
     invoked := option_list (Task_invocation t) |}.

(** [context] once every task of the fan-out has settled: the records are
    appended in completion order. *)
Definition settleAll (D : Destination) (context : Context) (settings : JSONObject)
    (privateSettings : JSONArray) (tasks : list Task) : Context :=
  foldl (fun ctx t => snd (onSubscription_resume D ctx settings privateSettings t))
    context (completionOrder (fun t => settlesAt (Task_promise t)) tasks).

(** [Destination.onEvent].  [subscriptions.map] exists on arrays only; the
    call on anything else is the engine's TypeError.  The default
    arguments of the source are [settings = ∅] and
    [privateSettings = []].  [Promise.all] cancels nothing: when it
    rejects, the tasks still pending run on and append their records, so
    [context_after] is the log after the last of them. *)
Definition onEvent (D : Destination) (context : Context) (event settings : JSONObject)
    (privateSettings : JSONArray) : Run (list StepResult) :=
  match getSubscriptions settings with
  | Throw e =>
      {| result := Throw e; context_after := context; settings_after := settings;
         invoked := [] |}
  | Ok subscriptions =>
      let destinationSettings := getDestinationSettings settings in
      match subscriptions with
      | Some (JArray subscriptions) =>
          let promises :=
            (fun s => onSubscription_start D s event destinationSettings)
              <$> subscriptions in
          let results := Promise_all (Task_promise <$> promises) in
          {| result := match results with
                       | Ok results => Ok (concat results)
                       | Throw e => Throw e
                       end;
             context_after :=
               settleAll D context destinationSettings privateSettings promises;
             settings_after := settings;
             invoked := omap Task_invocation promises |}
      | _ =>
          {| result := Throw TypeError; context_after := context;
             settings_after := settings; invoked := [] |}
      end
  end.

(** The options of [got.extend({ retry: 0, timeout: 3000, headers:
    { 'user-agent': undefined } })]; the [undefined] header is written
    [JNull]. *)
Definition gotDefaults : JSONObject :=
  {[ "retry" := JNumber 0; "timeout" := JNumber 3000;
     "headers" := JObject {[ "user-agent" := JNull ]} ]}.

(** The loop [request = request.extend(extension(context))]. *)
Fixpoint composeRequest (extensions : list Extension) (context : ExecuteInput.t)
    (request : Request) : Completion Request :=
  match extensions with
  | [] => Ok request
  | extension :: extensions' =>
      match extension context with
      | Throw e => Throw e
      | Ok opts => composeRequest extensions' context (request ++ [opts])
      end
  end.

(** [Destination.testCredentials]: the completion and the probes issued
    (request and settings of each call of [auth.options.testCredentials]). *)
Definition testCredentials (D : Destination) (settings : JSONObject)
    : Completion unit * list (Request * JSONObject) :=
  let context := ExecuteInput.mk ∅ None settings ∅ in
  match
    match settingsSchema D with
    | Some schema =>
        match Validate_executeStep "" "settings" schema context with
        | Ok _ => Ok tt
        | Throw e => Throw e
        end
    | None => Ok tt
    end
  with
  | Throw e => (Throw e, [])
  | Ok _ =>
      match auth D with
      | None => (Ok tt, [])
      | Some auth =>
          match composeRequest (requestExtensions D) context [gotDefaults] with
          | Throw e => (Throw e, [])
          | Ok request =>
              match auth_testCredentials (options auth) request settings with
              | Ok _ => (Ok tt, [(request, settings)])
              | Throw _ => (Throw (Error "Credentials are invalid"), [(request, settings)])
              end
          end
      end
  end.

End Runtime.

(** ** Instances for the worked examples *)

(** A reader for JSON texts: white space, [null], [true], [false], integers,
    string literals with backslash escapes of single characters, arrays and
    objects.  It stands for [JSON.parse] in the examples. *)
Module JSONReader.

Definition code (c : Ascii.ascii) : nat := Ascii.nat_of_ascii c.

Definition isSpace (c : Ascii.ascii) : bool :=
  (code c =? 32) || (code c =? 9) || (code c =? 10) || (code c =? 13).

Definition isDigit (c : Ascii.ascii) : bool :=
  (48 <=? code c) && (code c <=? 57).

Fixpoint skipSpaces (s : string) : string :=
  match s with
  | String c s' => if isSpace c then skipSpaces s' else s
  | EmptyString => s
  end.

(** The characters of a string literal after its opening quote. *)
Fixpoint readString (s : string) : option (string * string) :=
  match s with
  | EmptyString => None
  | String c s' =>
      if code c =? 34 then Some (EmptyString, s')
      else if code c =? 92 then
        match s' with
        | String d s'' =>
            match readString s'' with
            | Some (body, rest) => Some (String d body, rest)
            | None => None
            end
        | EmptyString => None
        end
      else
        match readString s' with
        | Some (body, rest) => Some (String c body, rest)
        | None => None
        end
  end.

Fixpoint readDigits (s : string) (acc : Z) : Z * string :=
  match s with
  | String c s' =>
      if isDigit c then readDigits s' (10 * acc + Z.of_nat (code c - 48))%Z
      else (acc, s)
  | EmptyString => (acc, s)
  end.

Fixpoint stripPrefix (p s : string) : option string :=
  match p, s with
  | EmptyString, _ => Some s
  | String a p', String b s' => if code a =? code b then stripPrefix p' s' else None
  | String _ _, EmptyString => None
  end.

(** The elements of an array after the first one has been announced, up
    to the closing bracket. *)
Fixpoint readElements (readValue : string -> option (JSONValue * string))
    (fuel : nat) (s : string) : option (list JSONValue * string) :=
  match fuel with
  | 0 => None
  | S fuel' =>
      match readValue s with
      | Some (v, rest) =>
          match skipSpaces rest with
          | String c rest' =>
              if code c =? 44 then
                match readElements readValue fuel' rest' with
                | Some (vs, rest'') => Some (v :: vs, rest'')
                | None => None
                end
              else if code c =? 93 then Some ([v], rest')
              else None
          | EmptyString => None
          end
      | None => None
      end
  end.

(** The members of an object, up to the closing brace; of two members
    with the same key the later one stays. *)
Fixpoint readMembers (readValue : string -> option (JSONValue * string))
    (fuel : nat) (s : string) : option (JSONObject * string) :=
  match fuel with
  | 0 => None
  | S fuel' =>
      match skipSpaces s with
      | String q rest =>
          if code q =? 34 then
            match readString rest with
            | Some (key, rest1) =>
                match skipSpaces rest1 with
                | String colon rest2 =>
                    if code colon =? 58 then
                      match readValue rest2 with
                      | Some (v, rest3) =>
                          match skipSpaces rest3 with
                          | String c rest4 =>
                              if code c =? 44 then
                                match readMembers readValue fuel' rest4 with
                                | Some (m, rest5) => Some (m ∪ {[ key := v ]}, rest5)
                                | None => None
                                end
                              else if code c =? 125 then Some ({[ key := v ]}, rest4)
                              else None
                          | EmptyString => None
                          end
                      | None => None
                      end
                    else None
                | EmptyString => None
                end
            | None => None
            end
          else None
      | EmptyString => None
      end
  end.

Fixpoint readValue (fuel : nat) (s : string) : option (JSONValue * string) :=
  match fuel with
  | 0 => None
  | S fuel' =>
      match skipSpaces s with
      | EmptyString => None
      | String c rest =>
          if code c =? 34 then
            match readString rest with
            | Some (body, rest') => Some (JString body, rest')
            | None => None
            end
          else if code c =? 91 then
            match skipSpaces rest with
            | String c' rest' =>
                if code c' =? 93 then Some (JArray [], rest')
                else
                  match readElements (readValue fuel') fuel' rest with
                  | Some (vs, rest'') => Some (JArray vs, rest'')
                  | None => None
                  end
            | EmptyString => None
            end
          else if code c =? 123 then
            match skipSpaces rest with
            | String c' rest' =>
                if code c' =? 125 then Some (JObject ∅, rest')
                else
                  match readMembers (readValue fuel') fuel' rest with
                  | Some (m, rest'') => Some (JObject m, rest'')
                  | None => None
                  end
            | EmptyString => None
            end
          else if code c =? 45 then
            match rest with
            | String d _ =>
                if isDigit d then
                  let '(n, rest') := readDigits rest 0 in Some (JNumber (- n), rest')
                else None
            | EmptyString => None
            end
          else if isDigit c then
            let '(n, rest') := readDigits (String c rest) 0 in Some (JNumber n, rest')
          else
            match stripPrefix "null" (String c rest) with
            | Some rest' => Some (JNull, rest')
            | None =>
                match stripPrefix "true" (String c rest) with
                | Some rest' => Some (JBool true, rest')
                | None =>
                    match stripPrefix "false" (String c rest) with
                    | Some rest' => Some (JBool false, rest')
                    | None => None
                    end
                end
            end
      end
  end.

Definition parse (text : string) : Completion JSONValue :=
  match readValue (S (String.length text)) text with
  | Some (v, rest) =>
      match skipSpaces rest with
      | EmptyString => Ok v
      | String _ _ => Throw SyntaxError
      end
  | None => Throw SyntaxError
  end.

(** Texts are written with apostrophes where JSON has double quotes. *)
Fixpoint quoted (s : string) : string :=
  match s with
  | EmptyString => EmptyString
  | String c s' =>
      String (if code c =? 39 then Ascii.ascii_of_nat 34 else c) (quoted s')
  end.

End JSONReader.

Module Examples.

(** The predicate library on the fragment [type = "..."]: such a
    predicate accepts the events of that type; anything else is reported
    as an error. *)
Definition validateType (subscribe : option JSONValue) (event : JSONObject)
    : Completion bool :=
  match subscribe with
  | Some (JString fql) =>
      match JSONReader.stripPrefix "type = " fql with
      | Some wanted =>
          match event !! "type" with
          | Some (JString t) => Ok (String.eqb wanted (dquote +:+ t +:+ dquote))
          | _ => Ok false
          end
      | None => Throw (Thrown (JString "malformed predicate"))
      end
  | _ => Throw (Thrown (JString "malformed predicate"))
  end.

(** A settings validation step that asks for the keys listed under
    [required] in the schema and throws the list of missing ones. *)
Definition validateRequired (name field : string) (schema : JSONValue)
    (context : ExecuteInput.t) : Completion StepResult :=
  match schema with
  | JObject m =>
      match m !! "required" with
      | Some (JArray keys) =>
          match
            List.filter (fun key =>
                           match key with
                           | JString k =>
                               match ExecuteInput.settings context !! k with
                               | None => true
                               | Some _ => false
                               end
                           | _ => false
                           end) keys
          with
          | [] => Ok {[ "output" := JNull ]}
          | missing => Throw (Thrown (JObject {[ "missing" := JArray missing ]}))
          end
      | _ => Ok {[ "output" := JNull ]}
      end
  | _ => Ok {[ "output" := JNull ]}
  end.

Definition redacted : JSONValue := JString "<redacted>".

(** An action that fulfils on tick [tick] with one step result echoing the
    [event] name of its payload. *)
Definition echoes (tick : nat) : Action := fun input =>
  {| settledAt := tick;
     inputAfter := input;
     outcome := Ok [ {[ "output" :=
                          default JNull (ExecuteInput.payload input !! "event") ]} ] |}.

(** An action whose request fails on tick [tick]. *)
Definition fails (tick : nat) : Action := fun input =>
  {| settledAt := tick;
     inputAfter := input;
     outcome := Throw (Thrown (JString "503 Service Unavailable")) |}.

Definition destination : Destination :=
  partnerAction "brokenEvent" (fails 3)
    (partnerAction "quickEvent" (echoes 1)
       (partnerAction "trackEvent" (echoes 5)
          (newDestination {| name := "Example"; defaultSubscriptions := [] |}))).

(** [{ type: "track", event: "Signed Up" }] *)
Definition signedUp : JSONObject :=
  {[ "type" := JString "track"; "event" := JString "Signed Up" ]}.

Definition subscribe (predicate partnerAction : string) : JSONValue :=
  JObject {[ "subscribe" := JString predicate; "partnerAction" := JString partnerAction ]}.

Definition onTrack : string := "type = " +:+ dquote +:+ "track" +:+ dquote.
Definition onPage : string := "type = " +:+ dquote +:+ "page" +:+ dquote.

Definition settingsWith (subscriptions : JSONValue) : JSONObject :=
  {[ "apiKey" := JString "s3cr3t"; "region" := JString "eu";
     "subscriptions" := subscriptions ]}.

(** The subscription list of the examples as a JSON text. *)
Definition subscriptionsText : string :=
  JSONReader.quoted
    "[{'subscribe':'type = \'track\'','partnerAction':'trackEvent'}, {'subscribe':'type = \'track\'','partnerAction':'quickEvent'}]".

(** A destination with a settings schema and a credential probe that
    accepts the key [s3cr3t] only. *)
Definition probe (request : Request) (settings : JSONObject) : Completion string :=
  match settings !! "apiKey" with
  | Some (JString "s3cr3t") => Ok "200 OK"
  | _ => Throw (Thrown (JString "401 Unauthorized: unknown key"))
  end.

Definition guarded : Destination :=
  apiKeyAuth {| auth_testCredentials := probe |}
    (validateSettings (JObject {[ "required" := JArray [JString "apiKey"] ]})
       (newDestination {| name := "Guarded"; defaultSubscriptions := [] |})).

(** A destination whose request extension throws. *)
Definition misconfigured : Destination :=
  apiKeyAuth {| auth_testCredentials := probe |}
    (extendRequest [fun _ => Throw (Thrown (JString "no region"))]
       (newDestination {| name := "Misconfigured"; defaultSubscriptions := [] |})).

(** The runtime on these instances. *)
Definition handle := onEvent JSONReader.parse validateType redacted.
Definition handleOne := onSubscription validateType redacted.
Definition probeCredentials := testCredentials validateRequired.

Definition twoTracks : JSONArray :=
  [subscribe onTrack "trackEvent"; subscribe onTrack "quickEvent"].

End Examples.

(** ** Names every object inherits *)


(** ** The request context in full ([src/lib/context.ts]) *)

(** [Context] above keeps the one field the destination runtime writes.
    Here are all the fields of the class, its setters and the metrics it
    sends.  A field that is [undefined] is [None]; numbers are integers;
    the value of a header (a string or a list of strings) and the [error]
    (of type [unknown]) are JSON values. *)
Module RequestContext.

Record Fields : Type := {
  http_req_method : option string;
  http_req_path : option string;
  http_req_query : option JSONObject;
  http_req_headers : option JSONObject;
  http_req_ip : option string;
  http_res_status : option Z;
  http_res_headers : option JSONObject;
  http_res_size : option Z;
  req_route : option string;
  req_duration : option Z;
  req_source : option string;
  req_destination : option string;
  error : option JSONValue;
  subscriptions : list Subscriptions.t
}.

(** The initial value of [fields]. *)
Definition initial : Fields :=
  {| http_req_method := None;
     http_req_path := None;
     http_req_query := None;
     http_req_headers := None;
     http_req_ip := None;
     http_res_status := None;
     http_res_headers := None;
     http_res_size := None;
     req_route := None;
     req_duration := None;
     req_source := None;
     req_destination := None;
     error := None;
     subscriptions := [] |}.

(** [SetFields]: every key of [Fields] but [subscriptions]. *)
Module Field.
Inductive t : Type :=
  | http_req_method
  | http_req_path
  | http_req_query
  | http_req_headers
  | http_req_ip
  | http_res_status
  | http_res_headers
  | http_res_size
  | req_route
  | req_duration
  | req_source
  | req_destination
  | error.
End Field.

(** [Fields[F]] *)
Definition fieldType (field : Field.t) : Type :=
  match field with
  | Field.http_req_method => option string
  | Field.http_req_path => option string
  | Field.http_req_query => option JSONObject
  | Field.http_req_headers => option JSONObject
  | Field.http_req_ip => option string
  | Field.http_res_status => option Z
  | Field.http_res_headers => option JSONObject
  | Field.http_res_size => option Z
  | Field.req_route => option string
  | Field.req_duration => option Z
  | Field.req_source => option string
  | Field.req_destination => option string
  | Field.error => option JSONValue
  end.

(** [__get(field)], and [getError()] for the [error] field. *)
Definition get (field : Field.t) (fields : Fields) : fieldType field :=
  match field with
  | Field.http_req_method => http_req_method fields
  | Field.http_req_path => http_req_path fields
  | Field.http_req_query => http_req_query fields
  | Field.http_req_headers => http_req_headers fields
  | Field.http_req_ip => http_req_ip fields
  | Field.http_res_status => http_res_status fields
  | Field.http_res_headers => http_res_headers fields
  | Field.http_res_size => http_res_size fields
  | Field.req_route => req_route fields
  | Field.req_duration => req_duration fields
  | Field.req_source => req_source fields
  | Field.req_destination => req_destination fields
  | Field.error => error fields
  end.

Definition getError (fields : Fields) : option JSONValue := error fields.

(** [set(field, value)]: [this.fields[field] = value]. *)
Definition set (field : Field.t) : fieldType field -> Fields -> Fields :=
  match field with
  | Field.http_req_method => fun value fields =>
      {| http_req_method := value;
         http_req_path := http_req_path fields;
         http_req_query := http_req_query fields;
         http_req_headers := http_req_headers fields;
         http_req_ip := http_req_ip fields;
         http_res_status := http_res_status fields;
         http_res_headers := http_res_headers fields;
         http_res_size := http_res_size fields;
         req_route := req_route fields;
         req_duration := req_duration fields;
         req_source := req_source fields;
         req_destination := req_destination fields;
         error := error fields;
         subscriptions := subscriptions fields |}
  | Field.http_req_path => fun value fields =>
      {| http_req_method := http_req_method fields;
         http_req_path := value;
         http_req_query := http_req_query fields;
         http_req_headers := http_req_headers fields;
         http_req_ip := http_req_ip fields;
         http_res_status := http_res_status fields;
         http_res_headers := http_res_headers fields;
         http_res_size := http_res_size fields;
         req_route := req_route fields;
         req_duration := req_duration fields;
         req_source := req_source fields;
         req_destination := req_destination fields;
         error := error fields;
         subscriptions := subscriptions fields |}
  | Field.http_req_query => fun value fields =>
      {| http_req_method := http_req_method fields;
         http_req_path := http_req_path fields;
         http_req_query := value;
         http_req_headers := http_req_headers fields;
         http_req_ip := http_req_ip fields;
         http_res_status := http_res_status fields;
         http_res_headers := http_res_headers fields;
         http_res_size := http_res_size fields;
         req_route := req_route fields;
         req_duration := req_duration fields;
         req_source := req_source fields;
         req_destination := req_destination fields;
         error := error fields;
         subscriptions := subscriptions fields |}
  | Field.http_req_headers => fun value fields =>
      {| http_req_method := http_req_method fields;
         http_req_path := http_req_path fields;
         http_req_query := http_req_query fields;
         http_req_headers := value;
         http_req_ip := http_req_ip fields;
         http_res_status := http_res_status fields;
         http_res_headers := http_res_headers fields;
         http_res_size := http_res_size fields;
         req_route := req_route fields;
         req_duration := req_duration fields;
         req_source := req_source fields;
         req_destination := req_destination fields;
         error := error fields;
         subscriptions := subscriptions fields |}
  | Field.http_req_ip => fun value fields =>
      {| http_req_method := http_req_method fields;
         http_req_path := http_req_path fields;
         http_req_query := http_req_query fields;
         http_req_headers := http_req_headers fields;
         http_req_ip := value;
         http_res_status := http_res_status fields;
         http_res_headers := http_res_headers fields;
         http_res_size := http_res_size fields;
         req_route := req_route fields;
         req_duration := req_duration fields;
         req_source := req_source fields;
         req_destination := req_destination fields;
         error := error fields;
         subscriptions := subscriptions fields |}
  | Field.http_res_status => fun value fields =>
      {| http_req_method := http_req_method fields;
         http_req_path := http_req_path fields;
         http_req_query := http_req_query fields;
         http_req_headers := http_req_headers fields;
         http_req_ip := http_req_ip fields;
         http_res_status := value;
         http_res_headers := http_res_headers fields;
         http_res_size := http_res_size fields;
         req_route := req_route fields;
         req_duration := req_duration fields;
         req_source := req_source fields;
         req_destination := req_destination fields;
         error := error fields;
         subscriptions := subscriptions fields |}
  | Field.http_res_headers => fun value fields =>
      {| http_req_method := http_req_method fields;
         http_req_path := http_req_path fields;
         http_req_query := http_req_query fields;
         http_req_headers := http_req_headers fields;
         http_req_ip := http_req_ip fields;
         http_res_status := http_res_status fields;
         http_res_headers := value;
         http_res_size := http_res_size fields;
         req_route := req_route fields;
         req_duration := req_duration fields;
         req_source := req_source fields;
         req_destination := req_destination fields;
         error := error fields;
         subscriptions := subscriptions fields |}
  | Field.http_res_size => fun value fields =>
      {| http_req_method := http_req_method fields;
         http_req_path := http_req_path fields;
         http_req_query := http_req_query fields;
         http_req_headers := http_req_headers fields;
         http_req_ip := http_req_ip fields;
         http_res_status := http_res_status fields;
         http_res_headers := http_res_headers fields;
         http_res_size := value;
         req_route := req_route fields;
         req_duration := req_duration fields;
         req_source := req_source fields;
         req_destination := req_destination fields;
         error := error fields;
         subscriptions := subscriptions fields |}
  | Field.req_route => fun value fields =>
      {| http_req_method := http_req_method fields;
         http_req_path := http_req_path fields;
         http_req_query := http_req_query fields;
         http_req_headers := http_req_headers fields;
         http_req_ip := http_req_ip fields;
         http_res_status := http_res_status fields;
         http_res_headers := http_res_headers fields;
         http_res_size := http_res_size fields;
         req_route := value;
         req_duration := req_duration fields;
         req_source := req_source fields;
         req_destination := req_destination fields;
         error := error fields;
         subscriptions := subscriptions fields |}
  | Field.req_duration => fun value fields =>
      {| http_req_method := http_req_method fields;
         http_req_path := http_req_path fields;
         http_req_query := http_req_query fields;
         http_req_headers := http_req_headers fields;
         http_req_ip := http_req_ip fields;
         http_res_status := http_res_status fields;
         http_res_headers := http_res_headers fields;
         http_res_size := http_res_size fields;
         req_route := req_route fields;
         req_duration := value;
         req_source := req_source fields;
         req_destination := req_destination fields;
         error := error fields;
         subscriptions := subscriptions fields |}
  | Field.req_source => fun value fields =>
      {| http_req_method := http_req_method fields;
         http_req_path := http_req_path fields;
         http_req_query := http_req_query fields;
         http_req_headers := http_req_headers fields;
         http_req_ip := http_req_ip fields;
         http_res_status := http_res_status fields;
         http_res_headers := http_res_headers fields;
         http_res_size := http_res_size fields;
         req_route := req_route fields;
         req_duration := req_duration fields;
         req_source := value;
         req_destination := req_destination fields;
         error := error fields;
         subscriptions := subscriptions fields |}
  | Field.req_destination => fun value fields =>
      {| http_req_method := http_req_method fields;
         http_req_path := http_req_path fields;
         http_req_query := http_req_query fields;
         http_req_headers := http_req_headers fields;
         http_req_ip := http_req_ip fields;
         http_res_status := http_res_status fields;
         http_res_headers := http_res_headers fields;
         http_res_size := http_res_size fields;
         req_route := req_route fields;
         req_duration := req_duration fields;
         req_source := req_source fields;
         req_destination := value;
         error := error fields;
         subscriptions := subscriptions fields |}
  | Field.error => fun value fields =>
      {| http_req_method := http_req_method fields;
         http_req_path := http_req_path fields;
         http_req_query := http_req_query fields;
         http_req_headers := http_req_headers fields;
         http_req_ip := http_req_ip fields;
         http_res_status := http_res_status fields;
         http_res_headers := http_res_headers fields;
         http_res_size := http_res_size fields;
         req_route := req_route fields;
         req_duration := req_duration fields;
         req_source := req_source fields;
         req_destination := req_destination fields;
         error := value;
         subscriptions := subscriptions fields |}
  end.

(** [append] on the [subscriptions] field: [push] on the array. *)
Definition append (value : Subscriptions.t) (fields : Fields) : Fields :=
  {| http_req_method := http_req_method fields;
     http_req_path := http_req_path fields;
     http_req_query := http_req_query fields;
     http_req_headers := http_req_headers fields;
     http_req_ip := http_req_ip fields;
     http_res_status := http_res_status fields;
     http_res_headers := http_res_headers fields;
     http_res_size := http_res_size fields;
     req_route := req_route fields;
     req_duration := req_duration fields;
     req_source := req_source fields;
     req_destination := req_destination fields;
     error := error fields;
     subscriptions := subscriptions fields ++ [value] |}.

(** The part of the context the destination runtime works on. *)
Definition log (fields : Fields) : Context :=
  Build_Context (subscriptions fields).

(** What JavaScript takes for true in a condition. *)
Definition truthy (v : JSONValue) : bool :=
  match v with
  | JNull => false
  | JBool b => b
  | JNumber n => negb (n =? 0)%Z
  | JString s => negb (String.eqb s "")
  | JArray _ => true
  | JObject _ => true
  end.

(** [x | 0] on an integer: the signed 32-bit integer congruent to it. *)
Definition toInt32 (x : Z) : Z := ((x + 2 ^ 31) `mod` 2 ^ 32 - 2 ^ 31)%Z.

(** [s.replace] with the global pattern for a colon: every colon becomes
    an underscore. *)
Fixpoint replaceColons (s : string) : string :=
  match s with
  | EmptyString => EmptyString
  | String c s' =>
      String (if Ascii.eqb c (Ascii.ascii_of_nat 58) then Ascii.ascii_of_nat 95 else c)
        (replaceColons s')
  end.

(** A call of the metrics client: [stats.increment(name, value, tags)] or
    [stats.histogram(name, value, tags)]. *)
Inductive Metric : Type :=
  | increment (name : string) (value : Z) (tags : list string)
  | histogram (name : string) (value : option Z) (tags : list string).



(** A string that may be undefined, inside a template literal. *)
Definition template (value : option string) : string := default "undefined" value.

(** [this.fields.http_res_status || 500] *)
Definition statusCode (fields : Fields) : Z :=
  match http_res_status fields with
  | Some status => if (status =? 0)%Z then 500%Z else status
  | None => 500%Z
  end.

(** [((statusCode / 100) | 0)] followed by [xx]. *)
Definition statusGroup (fields : Fields) : string :=
  pretty (toInt32 (statusCode fields ÷ 100)) +:+ "xx".

Definition endpoint (fields : Fields) : string :=
  replaceColons
    (template (http_req_method fields) +:+ " " +:+ template (http_req_path fields)).

(** The [user-agent] header, or [unknown] when the headers or the header
    are undefined or null, as it appears in the tag. *)
Definition rawUserAgent (fields : Fields) : string :=
  match http_req_headers fields with
  | Some headers =>
      match headers !! "user-agent" with
      | Some JNull => "unknown"
      | Some value => ToString value
      | None => "unknown"
      end
  | None => "unknown"
  end.

Definition tags (fields : Fields) : list string :=
  [ "status_code:" +:+ pretty (statusCode fields);
    "status_group:" +:+ statusGroup fields;
    "endpoint:" +:+ endpoint fields;
    "user_agent:" +:+ rawUserAgent fields ].

(** [sendRequestMetrics()], which is all [sendMetrics()] does: the calls
    of the metrics client, in order. *)
Definition sendRequestMetrics (fields : Fields) : list Metric :=
  let responseSize := http_res_size fields in
  [ increment "request" 1 (tags fields);
    histogram "request_duration" (req_duration fields) (tags fields) ]
  ++ (match responseSize with
      | Some size => if (size =? 0)%Z then [] else [histogram "response_size" responseSize (tags fields)]
      | None => []
      end)
  ++ (match error fields with
      | Some e => if truthy e then [increment "error" 1 (tags fields)] else []
      | None => []
      end).

Definition sendMetrics (fields : Fields) : list Metric := sendRequestMetrics fields.

End RequestContext.

(** ** The contact search of the SendGrid delete action *)

Module SendGrid.

(** [s.replace(re, empty)] with the global pattern for an apostrophe or
    a double quote: every such character is dropped. *)
Fixpoint sgqlEscape (s : string) : string :=
  match s with
  | EmptyString => EmptyString
  | String c s' =>
      if Ascii.eqb c (Ascii.ascii_of_nat 39) || Ascii.eqb c (Ascii.ascii_of_nat 34)
      then sgqlEscape s'
      else String c (sgqlEscape s')
  end.

Definition isQuote (c : Ascii.ascii) : Prop :=
  c = Ascii.ascii_of_nat 39 \/ c = Ascii.ascii_of_nat 34.

#[global] Instance isQuote_dec (c : Ascii.ascii) : Decision (isQuote c).
Proof. unfold isQuote. apply _. Defined.

(** The query of the search request: the escaped [payload.email] between
    apostrophes after [email = ].  [replace] is a method of strings only,
    so any other [email] is the engine's TypeError. *)
Definition searchQuery (payload : JSONObject) : Completion string :=
  match payload !! "email" with
  | Some (JString email) => Ok ("email = '" +:+ sgqlEscape email +:+ "'")
  | _ => Throw TypeError
  end.

(** The request step: the path given to [req.delete], or no request when
    [contactId] is null or undefined. *)
Definition deleteContact (contactId : option JSONValue) : option string :=
  match contactId with
  | None => None
  | Some JNull => None
  | Some id => Some ("marketing/contacts?ids=" +:+ ToString id)
  end.

(** How often the apostrophe occurs in a text. *)
Fixpoint apostrophes (s : string) : nat :=
  match s with
  | EmptyString => 0
  | String c s' =>
      (if Ascii.eqb c (Ascii.ascii_of_nat 39) then 1 else 0) + apostrophes s'
  end.

End SendGrid.

(** ** The basic options of the push command *)

Module Push.

(** lodash's [uniq]: of equal elements the first occurrence is kept, the
    others are dropped, and what is kept stays in order. *)
Fixpoint uniq (l : list string) : list string :=
  match l with
  | [] => []
  | x :: l' => x :: filter (fun y => y <> x) (uniq l')
  end.

(** [getBasicOptions(metadata, options)], on [metadata.basicOptions] and on
    [Object.keys(options)], the keys of the options in the order of the
    object. *)
Definition getBasicOptions (basicOptions : list string) (optionKeys : list string)
    : list string :=
  uniq (basicOptions ++ optionKeys).

End Push.

(** ** Further instances for the worked examples *)

Module MoreExamples.
Import Examples.

(** A text that is no JSON, and the list of the examples encoded twice. *)
Definition brokenText : string := "[{oops".
Definition twiceEncoded : string := JSONReader.quoted "'[]'".

(** Two request extensions and one that throws. *)
Definition withUserAgent : Extension :=
  fun _ => Ok {[ "headers" := JObject {[ "user-agent" := JString "Segment" ]} ]}.
Definition withKey : Extension :=
  fun context =>
    Ok {[ "headers" :=
            JObject {[ "authorization" :=
                         default JNull (ExecuteInput.settings context !! "apiKey") ]} ]}.
Definition withoutRegion : Extension :=
  fun _ => Throw (Thrown (JString "no region")).

(** A request for [GET /users/:id] answered with 404 and 512 bytes, after
    an error. *)
Definition notFound : RequestContext.Fields :=
  RequestContext.set RequestContext.Field.error (Some (JObject {[ "message" := JString "Not Found" ]}))
    (RequestContext.set RequestContext.Field.http_res_size (Some 512%Z)
       (RequestContext.set RequestContext.Field.http_res_status (Some 404%Z)
          (RequestContext.set RequestContext.Field.http_req_path (Some "/users/:id")
             (RequestContext.set RequestContext.Field.http_req_method (Some "GET")
                RequestContext.initial)))).

End MoreExamples.
(** * Properties *)

(** ** Completion order and [Promise.all] *)

Lemma insertByTick_Permutation {X} (tick : X -> nat) x l :
  insertByTick tick x l ≡ₚ x :: l.
Proof.
  induction l as [|y l IH]; simpl; [done|].
  case_decide; [done|].
  rewrite IH. apply Permutation_swap.
Qed.

Lemma completionOrder_Permutation {X} (tick : X -> nat) l :
  completionOrder tick l ≡ₚ l.
Proof.
  induction l as [|x l IH]; simpl; [done|].
  by rewrite insertByTick_Permutation, IH.
Qed.

Lemma firstRejection_Some {A} (l : list (Promise A)) e :
  firstRejection l = Some e -> exists p, p ∈ l /\ settlement p = Throw e.
Proof.
  induction l as [|p l IH]; simpl; [done|].
  destruct (settlement p) as [a|e'] eqn:Hp.
  - intros [q [Hq ?]]%IH. exists q. split; [by right | done].
  - intros [= ->]. exists p. split; [by left | done].
Qed.

Lemma firstRejection_None {A} (l : list (Promise A)) :
  firstRejection l = None <-> Forall (fun p => isThrow (settlement p) = false) l.
Proof.
  induction l as [|p l IH]; simpl.
  - split; [constructor | done].
  - destruct (settlement p) as [a|e] eqn:Hp.
    + rewrite IH. split.
      * intros H. constructor; [by rewrite Hp | done].
      * by inversion 1.
    + split; [done|]. inversion 1 as [|?? Hhd]. by rewrite Hp in Hhd.
Qed.

Lemma fulfilledValues_all {A} (l : list (Promise A)) (vs : list A) :
  Forall2 (fun p v => settlement p = Ok v) l vs -> fulfilledValues l = vs.
Proof.
  unfold fulfilledValues.
  induction 1 as [|p v l vs Hp _ IH]; csimpl; [done|].
  by rewrite Hp, IH.
Qed.

Lemma all_fulfilled_values {A} (l : list (Promise A)) :
  Forall (fun p => isThrow (settlement p) = false) l ->
  Forall2 (fun p v => settlement p = Ok v) l (fulfilledValues l).
Proof.
  unfold fulfilledValues.
  induction 1 as [|p l Hp _ IH]; csimpl; [constructor|].
  destruct (settlement p) as [a|e] eqn:E; [|done].
  by constructor.
Qed.

Lemma insertByTick_sorted {X} (tick : X -> nat) x l :
  StronglySorted (fun a b => tick a <= tick b) l ->
  StronglySorted (fun a b => tick a <= tick b) (insertByTick tick x l).
Proof.
  induction 1 as [|y l Hl IH Hy]; simpl.
  - repeat constructor.
  - case_decide as Hxy.
    + constructor; [by constructor|].
      constructor; [done|]. eapply Forall_impl; [exact Hy|]. simpl. lia.
    + constructor; [done|].
      rewrite insertByTick_Permutation. constructor; [lia | done].
Qed.

Lemma completionOrder_sorted {X} (tick : X -> nat) l :
  StronglySorted (fun a b => tick a <= tick b) (completionOrder tick l).
Proof.
  induction l as [|x l IH]; simpl; [constructor|]. by apply insertByTick_sorted.
Qed.

(** In a list sorted by tick the first rejection is an earliest one. *)
Lemma firstRejection_earliest {A} (l : list (Promise A)) e :
  StronglySorted (fun p q => settlesAt p <= settlesAt q) l ->
  firstRejection l = Some e ->
  exists p, p ∈ l /\ settlement p = Throw e /\
    forall q, q ∈ l -> isThrow (settlement q) = true -> settlesAt p <= settlesAt q.
Proof.
  induction 1 as [|p l Hl IH Hp]; simpl; [done|].
  destruct (settlement p) as [a|e'] eqn:E.
  - intros (p' & Hp' & He & Hfirst)%IH. exists p'.
    split; [by right|]. split; [done|].
    intros q [-> | Hq]%elem_of_cons Hthrow; [by rewrite E in Hthrow | by apply Hfirst].
  - intros [= ->]. exists p. split; [by left|]. split; [done|].
    intros q [-> | Hq]%elem_of_cons _; [done|].
    rewrite Forall_forall in Hp. by apply Hp.
Qed.

(** [Promise.all] fulfils exactly when every promise does, and then with
    the values in the order of the array, whatever the ticks. *)
Lemma Promise_all_Ok {A} (l : list (Promise A)) (vs : list A) :
  Promise_all l = Ok vs <-> Forall2 (fun p v => settlement p = Ok v) l vs.
Proof.
  unfold Promise_all.
  destruct (firstRejection _) as [e|] eqn:E.
  - split; [done|]. intros Hall.
    apply firstRejection_Some in E as [p [Hp He]].
    rewrite completionOrder_Permutation in Hp.
    apply list_elem_of_lookup in Hp as [i Hi].
    destruct (Forall2_lookup_l _ _ _ _ _ Hall Hi) as [v [_ Hv]]. congruence.
  - apply firstRejection_None in E. rewrite completionOrder_Permutation in E.
    split.
    + intros [= <-]. by apply all_fulfilled_values.
    + intros Hall. f_equal. by apply fulfilledValues_all.
Qed.

(** It rejects exactly when some promise does, and then with the reason of
    one of the rejected promises. *)
Lemma Promise_all_Throw {A} (l : list (Promise A)) p e :
  p ∈ l -> settlement p = Throw e ->
  exists q e', q ∈ l /\ settlement q = Throw e' /\ Promise_all l = Throw e'.
Proof.
  intros Hp He. unfold Promise_all.
  destruct (firstRejection _) as [e'|] eqn:E.
  - apply firstRejection_Some in E as [q [Hq Hq']].
    rewrite completionOrder_Permutation in Hq. by exists q, e'.
  - apply firstRejection_None in E. rewrite completionOrder_Permutation in E.
    rewrite Forall_forall in E. specialize (E p Hp). by rewrite He in E.
Qed.

(** When it rejects, the reason is that of a promise no rejected promise
    settles before. *)
Lemma Promise_all_first_rejection {A} (l : list (Promise A)) e :
  Promise_all l = Throw e ->
  exists p, p ∈ l /\ settlement p = Throw e /\
    forall q, q ∈ l -> isThrow (settlement q) = true -> settlesAt p <= settlesAt q.
Proof.
  unfold Promise_all.
  destruct (firstRejection _) as [e'|] eqn:E; [|done]. intros [= ->].
  apply firstRejection_earliest in E as (p & Hp & He & Hfirst);
    [|apply completionOrder_sorted].
  exists p. rewrite completionOrder_Permutation in Hp.
  split; [done|]. split; [done|].
  intros q Hq. apply Hfirst. by rewrite completionOrder_Permutation.
Qed.

Section RuntimeProperties.

Variable JSON_parse : string -> Completion JSONValue.
Variable validate : option JSONValue -> JSONObject -> Completion bool.
Variable Validate_executeStep :
  string -> string -> JSONValue -> ExecuteInput.t -> Completion StepResult.
Variable placeholder : JSONValue.

Local Abbreviation redactSettings := (redactSettings placeholder).
Local Abbreviation getSubscriptions := (getSubscriptions JSON_parse).
Local Abbreviation onSubscription_start := (onSubscription_start validate).
Local Abbreviation onSubscription_resume := (onSubscription_resume placeholder).
Local Abbreviation onSubscription := (onSubscription validate placeholder).
Local Abbreviation settleAll := (settleAll placeholder).
Local Abbreviation onEvent := (onEvent JSON_parse validate placeholder).
Local Abbreviation testCredentials := (testCredentials Validate_executeStep).

Implicit Types (D : Destination) (context : Context) (event settings : JSONObject)
  (privateSettings : JSONArray) (subscription : JSONValue) (t : Task).

(** *** Redaction *)

Lemma redactSettings_lookup settings privateSettings k :
  redactSettings settings privateSettings !! k = settings !! k \/
  redactSettings settings privateSettings !! k = (fun _ => placeholder) <$> settings !! k.
Proof.
  revert settings. induction privateSettings as [|key keys IH]; intros settings; simpl.
  - by left.
  - unfold redactSettings in *. simpl.
    destruct (IH (match key with
                  | JString k0 => alter (fun _ => placeholder) k0 settings
                  | _ => settings
                  end)) as [-> | ->];
      destruct key as [| | |k0| |]; auto;
      rewrite lookup_alter; case_decide; subst; auto;
      right; by destruct (settings !! k).
Qed.

(** Every private key the settings hold reads as the placeholder. *)
Lemma redactSettings_private settings privateSettings k :
  JString k ∈ privateSettings ->
  redactSettings settings privateSettings !! k = (fun _ => placeholder) <$> settings !! k.
Proof.
  revert settings. induction privateSettings as [|key keys IH]; intros settings Hk.
  - by apply elem_of_nil in Hk.
  - unfold redactSettings in *. simpl.
    apply elem_of_cons in Hk as [<- | Hk].
    + destruct (redactSettings_lookup (alter (fun _ => placeholder) k settings) keys k)
        as [H | H]; unfold redactSettings in H; rewrite H;
        rewrite lookup_alter; case_decide; try done; by destruct (settings !! k).
    + rewrite (IH _ Hk).
      destruct key as [| | |k0| |]; try done.
      rewrite lookup_alter; case_decide; subst; [|done]. by destruct (settings !! k).
Qed.

(** *** One subscription *)

Lemma onSubscription_result D context subscription event settings privateSettings :
  result (onSubscription D context subscription event settings privateSettings)
  = settlement (Task_promise (onSubscription_start D subscription event settings)).
Proof.
  unfold onSubscription.
  destruct (onSubscription_start _ _ _ _) as [r | slug started input run]; simpl; [done|].
  by destruct (outcome run).
Qed.

Lemma onSubscription_invoked D context subscription event settings privateSettings :
  invoked (onSubscription D context subscription event settings privateSettings)
  = option_list (Task_invocation (onSubscription_start D subscription event settings)).
Proof.
  unfold onSubscription.
  by destruct (onSubscription_resume _ _ _ _ _).
Qed.

Lemma onSubscription_context D context subscription event settings privateSettings :
  context_after (onSubscription D context subscription event settings privateSettings)
  = snd (onSubscription_resume D context settings privateSettings
           (onSubscription_start D subscription event settings)).
Proof.
  unfold onSubscription.
  by destruct (onSubscription_resume _ _ _ _ _).
Qed.

(** The records a settled task appends do not depend on what the log
    already holds. *)
Lemma onSubscription_resume_appends D context settings privateSettings t :
  subscriptions (snd (onSubscription_resume D context settings privateSettings t))
  = subscriptions context
    ++ subscriptions (snd (onSubscription_resume D emptyContext settings privateSettings t)).
Proof.
  destruct t as [r | slug started input run]; simpl.
  - by rewrite app_nil_r.
  - destruct (outcome run); simpl; [done | by rewrite app_nil_r].
Qed.

Lemma foldl_resume_appends D settings privateSettings (ts : list Task) context :
  subscriptions
    (foldl (fun ctx t => snd (onSubscription_resume D ctx settings privateSettings t))
       context ts)
  = subscriptions context
    ++ (ts ≫= fun t =>
          subscriptions (snd (onSubscription_resume D emptyContext settings privateSettings t))).
Proof.
  revert context. induction ts as [|t ts IH]; intros context; csimpl.
  - by rewrite app_nil_r.
  - rewrite IH, onSubscription_resume_appends. by rewrite (assoc_L (++)).
Qed.

(** The log after the fan-out: what was there, then the records of the
    tasks in completion order. *)
Lemma settleAll_appends D context settings privateSettings (tasks : list Task) :
  subscriptions (settleAll D context settings privateSettings tasks)
  = subscriptions context
    ++ (completionOrder (fun t => settlesAt (Task_promise t)) tasks ≫= fun t =>
          subscriptions (snd (onSubscription_resume D emptyContext settings privateSettings t))).
Proof. unfold settleAll. apply foldl_resume_appends. Qed.

(** *** The whole event *)

Lemma onEvent_array D context event settings privateSettings l :
  getSubscriptions settings = Ok (Some (JArray l)) ->
  onEvent D context event settings privateSettings =
    let destinationSettings := getDestinationSettings settings in
    let promises := (fun s => onSubscription_start D s event destinationSettings) <$> l in
    {| result := match Promise_all (Task_promise <$> promises) with
                 | Ok results => Ok (concat results)
                 | Throw e => Throw e
                 end;
       context_after := settleAll D context destinationSettings privateSettings promises;
       settings_after := settings;
       invoked := omap Task_invocation promises |}.
Proof. intros H. unfold onEvent. by rewrite H. Qed.

(** C5.  A subscription whose predicate does not accept the event returns
    before anything else happens: the call fulfils with the single step
    result [{ output: "not subscribed" }], no action is looked up or
    executed ([invoked] is empty) and nothing is appended to the context. *)
Theorem onSubscription_not_subscribed D context subscription event settings
    privateSettings predicate :
  getProp subscription "subscribe" = Ok predicate ->
  validate predicate event = Ok false ->
  onSubscription D context subscription event settings privateSettings =
    {| result := Ok [ {[ "output" := JString "not subscribed" ]} ];
       context_after := context;
       settings_after := settings;
       invoked := [] |}.
Proof.
  intros Hsubscribe Hvalidate.
  unfold onSubscription, onSubscription_start.
  by rewrite Hsubscribe, Hvalidate.
Qed.

(** C3 (as amended).  When [settings.subscriptions] is neither a string nor
    an array (absent, null, a boolean, a number or a plain object), no
    parsing error is raised: [getSubscriptions] returns the value as it is.
    [onEvent] still fails for the whole event, with the engine's TypeError
    of calling [map] on that value; no subscription is processed and
    nothing is recorded. *)
Theorem onEvent_subscriptions_not_a_list D context event settings privateSettings :
  (forall text, settings !! "subscriptions" <> Some (JString text)) ->
  (forall l, settings !! "subscriptions" <> Some (JArray l)) ->
  getSubscriptions settings = Ok (settings !! "subscriptions")
  /\ onEvent D context event settings privateSettings =
       {| result := Throw TypeError;
          context_after := context;
          settings_after := settings;
          invoked := [] |}.
Proof.
  intros Hstring Harray.
  unfold onEvent, getSubscriptions.
  destruct (settings !! "subscriptions") as [[| | |text|l|]|] eqn:E; try done.
  - by destruct (Hstring text).
  - by destruct (Harray l).
Qed.

(** C4.  Handing the subscription list as a JSON text that [JSON.parse]
    decodes to the array [A], or as the array [A] itself, makes no
    difference: same aggregated result, same records in the context, same
    action calls. *)
Theorem onEvent_string_or_array D context event settings privateSettings text A :
  JSON_parse text = Ok (JArray A) ->
  let encoded :=
    onEvent D context event (<["subscriptions" := JString text]> settings) privateSettings in
  let parsed :=
    onEvent D context event (<["subscriptions" := JArray A]> settings) privateSettings in
  result encoded = result parsed /\
  context_after encoded = context_after parsed /\
  invoked encoded = invoked parsed.
Proof.
  intros Hparse encoded parsed. subst encoded parsed.
  rewrite (onEvent_array D context event _ privateSettings A).
  2:{ unfold getSubscriptions. by rewrite lookup_insert_eq, Hparse. }
  rewrite (onEvent_array D context event _ privateSettings A).
  2:{ unfold getSubscriptions. by rewrite lookup_insert_eq. }
  unfold getDestinationSettings. rewrite !delete_insert_eq. done.
Qed.

(** When does [onEvent] fulfil, in terms of the promises of the fan-out. *)
Lemma onEvent_fulfils D context event settings privateSettings l rs :
  getSubscriptions settings = Ok (Some (JArray l)) ->
  result (onEvent D context event settings privateSettings) = Ok rs <->
  exists rss,
    Forall2 (fun s r =>
               settlement (Task_promise
                 (onSubscription_start D s event (getDestinationSettings settings))) = Ok r)
      l rss
    /\ rs = concat rss.
Proof.
  intros Hsubs. rewrite (onEvent_array _ _ _ _ _ _ Hsubs). simpl.
  split.
  - destruct (Promise_all _) as [rss|e] eqn:E; [|done].
    intros [= <-]. exists rss. split; [|done].
    apply Promise_all_Ok in E. rewrite <- list_fmap_compose in E.
    by apply Forall2_fmap_l in E.
  - intros [rss [Hall ->]].
    assert (Promise_all
              (Task_promise <$>
                 ((fun s => onSubscription_start D s event (getDestinationSettings settings))
                    <$> l)) = Ok rss) as ->; [|done].
    apply Promise_all_Ok. rewrite <- list_fmap_compose. by apply Forall2_fmap_l.
Qed.

(** C9.  [onEvent] returns a result list exactly when every subscription
    fulfils, and the list is then the concatenation of the step results
    of the subscriptions in declaration order, on whatever ticks their
    actions settle. *)
Theorem onEvent_declaration_order D context event settings privateSettings l rs :
  getSubscriptions settings = Ok (Some (JArray l)) ->
  result (onEvent D context event settings privateSettings) = Ok rs <->
  exists rss,
    Forall2 (fun s r =>
               result (onSubscription D context s event
                         (getDestinationSettings settings) privateSettings) = Ok r) l rss
    /\ rs = concat rss.
Proof.
  intros Hsubs. rewrite (onEvent_fulfils _ _ _ _ _ _ _ Hsubs).
  split; intros (rss & Hall & ->); exists rss; (split; [|done]);
    (eapply Forall2_impl; [exact Hall|]); intros s r Hs; cbv beta in *.
  - by rewrite onSubscription_result.
  - by rewrite onSubscription_result in Hs.
Qed.

(** What the task of a called action looks like. *)
Lemma onSubscription_start_Awaiting D subscription event settings slug started input run :
  onSubscription_start D subscription event settings = Awaiting slug started input run ->
  exists action,
    partnerActions D !! ToPropertyKey slug = Some action /\
    ExecuteInput.payload input = event /\
    ExecuteInput.settings input = settings /\
    run = action input.
Proof.
  unfold onSubscription_start.
  destruct (getProp subscription "subscribe") as [p|]; [|done].
  destruct (validate p event) as [[|]|]; try done.
  destruct (getProp subscription "partnerAction") as [slug'|]; [|done].
  destruct (partnerActions D !! ToPropertyKey slug') as [action|] eqn:Haction; [|done].
  destruct (getProp subscription "mapping") as [m|]; [|done].
  intros [= <- <- <- <-]. by exists action.
Qed.

(** An action is executed exactly for a subscription whose predicate
    accepts the event and whose slug is registered. *)
Lemma onSubscription_executed D context subscription event settings privateSettings :
  invoked (onSubscription D context subscription event settings privateSettings) <> [] <->
  exists predicate slug action,
    getProp subscription "subscribe" = Ok predicate /\
    validate predicate event = Ok true /\
    getProp subscription "partnerAction" = Ok slug /\
    partnerActions D !! ToPropertyKey slug = Some action.
Proof.
  rewrite onSubscription_invoked. unfold onSubscription_start. split.
  - destruct (getProp subscription "subscribe") as [p|]; [|done].
    destruct (validate p event) as [[|]|] eqn:Hv; try done.
    destruct (getProp subscription "partnerAction") as [slug|]; [|done].
    destruct (partnerActions D !! ToPropertyKey slug) as [action|] eqn:Ha; [|done].
    intros _. by exists p, slug, action.
  - intros (p & slug & action & Hp & Hv & Hslug & Ha).
    rewrite Hp, Hv, Hslug, Ha.
    by destruct subscription.
Qed.

(** The record of a settled task, when it appends one. *)
Lemma onSubscription_resume_record D settings privateSettings t x :
  x ∈ subscriptions (snd (onSubscription_resume D emptyContext settings privateSettings t)) ->
  ExecuteInput.settings (Subscriptions.input x) = redactSettings settings privateSettings.
Proof.
  destruct t as [r | slug started input run]; simpl.
  - by intros ?%elem_of_nil.
  - destruct (outcome run); simpl.
    + by intros ->%list_elem_of_singleton.
    + by intros ?%elem_of_nil.
Qed.

(** C1 (as amended).  When the processing of some subscription fails,
    [onEvent] as a whole fails: it rejects with the error of one of the
    failing subscriptions and returns no result list.  The siblings are
    not cancelled: every record a subscription appends when it runs alone
    is appended during [onEvent] as well. *)
Theorem onEvent_failure_aborts D context event settings privateSettings l s e :
  getSubscriptions settings = Ok (Some (JArray l)) ->
  s ∈ l ->
  result (onSubscription D context s event
            (getDestinationSettings settings) privateSettings) = Throw e ->
  (exists s' e',
      s' ∈ l /\
      result (onSubscription D context s' event
                (getDestinationSettings settings) privateSettings) = Throw e' /\
      result (onEvent D context event settings privateSettings) = Throw e')
  /\ (forall s' x,
        s' ∈ l ->
        x ∈ subscriptions (context_after
               (onSubscription D emptyContext s' event
                  (getDestinationSettings settings) privateSettings)) ->
        x ∈ subscriptions (context_after
               (onEvent D context event settings privateSettings))).
Proof.
  intros Hsubs Hs He. rewrite (onEvent_array _ _ _ _ _ _ Hsubs). simpl. split.
  - rewrite onSubscription_result in He.
    set (start := fun s0 => onSubscription_start D s0 event (getDestinationSettings settings)).
    destruct (Promise_all_Throw (Task_promise <$> (start <$> l))
                (Task_promise (start s)) e) as (q & e' & Hq & Hq' & Hall).
    { apply list_elem_of_fmap_2. by apply list_elem_of_fmap_2. }
    { done. }
    apply list_elem_of_fmap in Hq as (t & -> & Ht).
    apply list_elem_of_fmap in Ht as (s' & -> & Hs').
    exists s', e'. split; [done|]. split.
    + by rewrite onSubscription_result.
    + by rewrite Hall.
  - intros s' x Hs' Hx. rewrite onSubscription_context in Hx.
    rewrite settleAll_appends. apply elem_of_app. right.
    rewrite completionOrder_Permutation.
    apply list_elem_of_bind.
    exists (onSubscription_start D s' event (getDestinationSettings settings)).
    split; [done|].
    by apply (list_elem_of_fmap_2
                (fun s0 => onSubscription_start D s0 event (getDestinationSettings settings))).
Qed.

(** C6 (as amended).  During [onEvent] the context log only grows, and
    what it gains is, up to completion order, what each subscription
    appends when it runs alone: exactly one record for a subscription
    whose action was executed and fulfilled, and none for a subscription
    that is not subscribed, names an unregistered action or fails. *)
Theorem onEvent_instrumentation D context event settings privateSettings l :
  getSubscriptions settings = Ok (Some (JArray l)) ->
  let alone s :=
    onSubscription D emptyContext s event (getDestinationSettings settings) privateSettings in
  (exists entries,
      subscriptions (context_after (onEvent D context event settings privateSettings))
      = subscriptions context ++ entries /\
      entries ≡ₚ l ≫= (fun s => subscriptions (context_after (alone s))))
  /\ (forall s,
        length (subscriptions (context_after (alone s)))
        = match invoked (alone s), result (alone s) with
          | _ :: _, Ok _ => 1
          | _, _ => 0
          end).
Proof.
  intros Hsubs alone. split.
  - rewrite (onEvent_array _ _ _ _ _ _ Hsubs). simpl.
    eexists. split; [apply settleAll_appends|].
    rewrite completionOrder_Permutation, list_fmap_bind.
    apply reflexive_eq, list_bind_ext; [|done].
    intros s. subst alone. simpl. by rewrite onSubscription_context.
  - intros s. subst alone. cbv beta.
    rewrite onSubscription_context, onSubscription_invoked, onSubscription_result.
    destruct (onSubscription_start _ _ _ _) as [r | slug started input run]; simpl.
    + by destruct r.
    + by destruct (outcome run).
Qed.

(** C7.  In every record [onEvent] appends, each key listed in
    [privateSettings] that the destination settings hold reads as the
    placeholder in the stored settings, and a key they do not hold stays
    absent: the stored value of a private key is never the actual one. *)
Theorem onEvent_records_redacted D context event settings privateSettings entries x k :
  subscriptions (context_after (onEvent D context event settings privateSettings))
  = subscriptions context ++ entries ->
  x ∈ entries ->
  JString k ∈ privateSettings ->
  ExecuteInput.settings (Subscriptions.input x) !! k
  = (fun _ => placeholder) <$> getDestinationSettings settings !! k.
Proof.
  intros Hlog Hx Hk.
  assert (ExecuteInput.settings (Subscriptions.input x)
          = redactSettings (getDestinationSettings settings) privateSettings) as ->;
    [|by apply redactSettings_private].
  revert Hlog. unfold onEvent.
  destruct (getSubscriptions settings) as [[[| | | |l|]|]|]; cbn [context_after];
    try (intros Hlog; apply (f_equal length) in Hlog; rewrite length_app in Hlog;
         destruct entries; [by apply elem_of_nil in Hx | simpl in Hlog; lia]).
  rewrite settleAll_appends. intros <-%app_inv_head.
  apply list_elem_of_bind in Hx as (t & Hx & _).
  by eapply onSubscription_resume_record.
Qed.

(** C8.  Every [action.execute] call of [onEvent] is handed the caller's
    settings without the [subscriptions] key and with every other key
    unchanged, and the caller's settings object is the same after the
    call. *)
Theorem onEvent_destination_settings D context event settings privateSettings :
  (forall slug input,
      (slug, input) ∈ invoked (onEvent D context event settings privateSettings) ->
      ExecuteInput.settings input = delete "subscriptions" settings /\
      ExecuteInput.settings input !! "subscriptions" = None /\
      forall k, k <> "subscriptions" -> ExecuteInput.settings input !! k = settings !! k)
  /\ settings_after (onEvent D context event settings privateSettings) = settings.
Proof.
  split.
  - intros slug input. unfold onEvent.
    destruct (getSubscriptions settings) as [[[| | | |l|]|]|]; simpl;
      try by intros ?%elem_of_nil.
    intros (t & Ht & Hinv)%list_elem_of_omap.
    apply list_elem_of_fmap in Ht as (s & -> & _).
    destruct (onSubscription_start _ _ _ _) as [r | slug' started input' run] eqn:E;
      [done|]. simpl in Hinv. injection Hinv as <- <-.
    apply onSubscription_start_Awaiting in E as (action & _ & _ & -> & _).
    unfold getDestinationSettings. split; [done|]. split.
    + apply lookup_delete_eq.
    + intros k Hk. by apply lookup_delete_ne.
  - unfold onEvent.
    by destruct (getSubscriptions settings) as [[[| | | |l|]|]|].
Qed.

(** C2 (as amended).  A failure of the credential probe is reported as
    the one error 'Credentials are invalid', whatever the probe threw.  A
    failure of the settings validation step, or of a request extension,
    is not normalized: it reaches the caller as it was raised, and no
    probe is issued. *)
Theorem testCredentials_failures D settings :
  let context := ExecuteInput.mk ∅ None settings ∅ in
  let validated :=
    match settingsSchema D with
    | Some schema => exists r, Validate_executeStep "" "settings" schema context = Ok r
    | None => True
    end in
  (forall a request e,
      validated ->
      auth D = Some a ->
      composeRequest (requestExtensions D) context [gotDefaults] = Ok request ->
      auth_testCredentials (options a) request settings = Throw e ->
      testCredentials D settings
      = (Throw (Error "Credentials are invalid"), [(request, settings)]))
  /\ (forall schema e,
        settingsSchema D = Some schema ->
        Validate_executeStep "" "settings" schema context = Throw e ->
        testCredentials D settings = (Throw e, []))
  /\ (forall a e,
        validated ->
        auth D = Some a ->
        composeRequest (requestExtensions D) context [gotDefaults] = Throw e ->
        testCredentials D settings = (Throw e, [])).
Proof.
  intros context validated. subst context validated. unfold testCredentials.
  repeat split.
  - intros a request e Hvalid Hauth Hreq Hprobe.
    destruct (settingsSchema D) as [schema|].
    + destruct Hvalid as [r ->]. by rewrite Hauth, Hreq, Hprobe.
    + by rewrite Hauth, Hreq, Hprobe.
  - intros schema e -> Hv. by rewrite Hv.
  - intros a e Hvalid Hauth Hreq.
    destruct (settingsSchema D) as [schema|].
    + destruct Hvalid as [r ->]. by rewrite Hauth, Hreq.
    + by rewrite Hauth, Hreq.
Qed.

(** C10.  A destination with neither a settings schema nor an
    authentication scheme passes the credential test for any settings,
    and no probe is issued. *)
Theorem testCredentials_nothing_configured D settings :
  settingsSchema D = None ->
  auth D = None ->
  testCredentials D settings = (Ok tt, []).
Proof.
  intros Hschema Hauth. unfold testCredentials. by rewrite Hschema, Hauth.
Qed.

(** The error [onEvent] rejects with is that of a failing subscription
    whose promise no other failing subscription's promise settles before:
    a failure before the [await] (tick 0) goes first. *)
Lemma onEvent_first_rejection D context event settings privateSettings l e :
  getSubscriptions settings = Ok (Some (JArray l)) ->
  result (onEvent D context event settings privateSettings) = Throw e ->
  let promise s :=
    Task_promise (onSubscription_start D s event (getDestinationSettings settings)) in
  exists s, s ∈ l /\ settlement (promise s) = Throw e /\
    forall s', s' ∈ l -> isThrow (settlement (promise s')) = true ->
      settlesAt (promise s) <= settlesAt (promise s').
Proof.
  intros Hsubs. rewrite (onEvent_array _ _ _ _ _ _ Hsubs). simpl.
  destruct (Promise_all _) as [rss|e'] eqn:E; [done|]. intros [= ->].
  apply Promise_all_first_rejection in E as (p & Hp & He & Hfirst).
  rewrite <- list_fmap_compose in Hp, Hfirst.
  apply list_elem_of_fmap in Hp as (s & -> & Hs).
  exists s. split; [done|]. split; [done|].
  intros s' Hs' Hthrow. apply Hfirst; [|done].
  by apply (list_elem_of_fmap_2
              (Task_promise ∘
                 (fun s0 => onSubscription_start D s0 event (getDestinationSettings settings)))).
Qed.

(** The schedule of the actions does not show in the promise of a
    subscription, nor in whether and with what list [onEvent] fulfils. *)
Lemma onSubscription_settlement_any_schedule reschedule D subscription event settings :
  settlement (Task_promise
                (onSubscription_start (onSchedule reschedule D) subscription event settings))
  = settlement (Task_promise (onSubscription_start D subscription event settings)).
Proof.
  unfold onSubscription_start. simpl.
  destruct (getProp subscription "subscribe") as [p|]; [|done].
  destruct (validate p event) as [[|]|]; try done.
  destruct (getProp subscription "partnerAction") as [slug|]; [|done].
  rewrite lookup_fmap.
  destruct (partnerActions D !! ToPropertyKey slug) as [action|]; simpl; [|done].
  by destruct (getProp subscription "mapping").
Qed.

Lemma onEvent_result_any_schedule reschedule D context event settings privateSettings rs :
  result (onEvent (onSchedule reschedule D) context event settings privateSettings) = Ok rs
  <-> result (onEvent D context event settings privateSettings) = Ok rs.
Proof.
  destruct (getSubscriptions settings) as [[[| | | |l|]|]|] eqn:Hsubs;
    try (unfold onEvent; by rewrite Hsubs).
  rewrite !(onEvent_fulfils _ _ _ _ _ _ _ Hsubs).
  split; intros (rss & Hall & ->); exists rss; (split; [|done]);
    (eapply Forall2_impl; [exact Hall|]); intros s r Hs; cbv beta in *.
  - by rewrite onSubscription_settlement_any_schedule in Hs.
  - by rewrite onSubscription_settlement_any_schedule.
Qed.

End RuntimeProperties.


(** * Further properties of the destination runtime *)

Section RuntimeEdges.

Variable JSON_parse : string -> Completion JSONValue.
Variable validate : option JSONValue -> JSONObject -> Completion bool.
Variable Validate_executeStep :
  string -> string -> JSONValue -> ExecuteInput.t -> Completion StepResult.
Variable placeholder : JSONValue.

Local Abbreviation getSubscriptions := (getSubscriptions JSON_parse).
Local Abbreviation onSubscription_start := (onSubscription_start validate).
Local Abbreviation onSubscription_resume := (onSubscription_resume placeholder).
Local Abbreviation onSubscription := (onSubscription validate placeholder).
Local Abbreviation settleAll := (settleAll placeholder).
Local Abbreviation onEvent := (onEvent JSON_parse validate placeholder).
Local Abbreviation testCredentials := (testCredentials Validate_executeStep).

Implicit Types (D : Destination) (context : Context) (event settings : JSONObject)
  (privateSettings : JSONArray) (subscription : JSONValue) (t : Task).

(** X1.  When [settings.subscriptions] is a text that [JSON.parse] refuses,
    [onEvent] rejects with the error of [JSON.parse]: no subscription is
    processed, no action is called and the context is left as it was. *)
Theorem onEvent_malformed_text D context event settings privateSettings text e :
  settings !! "subscriptions" = Some (JString text) ->
  JSON_parse text = Throw e ->
  onEvent D context event settings privateSettings =
    {| result := Throw e;
       context_after := context;
       settings_after := settings;
       invoked := [] |}.
Proof.
  intros Htext Hparse. unfold onEvent, getSubscriptions.
  by rewrite Htext, Hparse.
Qed.

(** X2.  A text that [JSON.parse] decodes to anything but an array (a list
    encoded twice, a single subscription object) is not decoded further:
    [onEvent] fails with the TypeError of calling [map] on it. *)
Theorem onEvent_text_not_a_list D context event settings privateSettings text v :
  settings !! "subscriptions" = Some (JString text) ->
  JSON_parse text = Ok v ->
  (forall l, v <> JArray l) ->
  onEvent D context event settings privateSettings =
    {| result := Throw TypeError;
       context_after := context;
       settings_after := settings;
       invoked := [] |}.
Proof.
  intros Htext Hparse Hv. unfold onEvent, getSubscriptions.
  rewrite Htext, Hparse.
  destruct v as [| | | |l|]; try done. by destruct (Hv l).
Qed.

Lemma context_eq (c1 c2 : Context) : subscriptions c1 = subscriptions c2 -> c1 = c2.
Proof. destruct c1, c2; simpl. by intros ->. Qed.

Lemma settleAll_nothing_recorded D context settings privateSettings (tasks : list Task) :
  Forall (fun t => exists r, t = Done r) tasks ->
  settleAll D context settings privateSettings tasks = context.
Proof.
  intros Hdone. apply context_eq. rewrite settleAll_appends.
  rewrite <- (app_nil_r (subscriptions context)) at 2. f_equal.
  assert (Forall (fun t => exists r, t = Done r)
            (completionOrder (fun t => settlesAt (Task_promise t)) tasks)) as Hord
    by by rewrite completionOrder_Permutation.
  induction Hord as [|t ts [r ->] _ IH]; csimpl; [done|]. exact IH.
Qed.

(** X3.  When the predicate of no subscription accepts the event (in
    particular when the list is empty), [onEvent] fulfils with one
    [{ output: "not subscribed" }] per subscription, calls no action and
    appends nothing to the context. *)
Theorem onEvent_nothing_subscribed D context event settings privateSettings l :
  getSubscriptions settings = Ok (Some (JArray l)) ->
  Forall (fun s => exists predicate,
            getProp s "subscribe" = Ok predicate /\ validate predicate event = Ok false) l ->
  onEvent D context event settings privateSettings =
    {| result := Ok (replicate (length l) {[ "output" := JString "not subscribed" ]});
       context_after := context;
       settings_after := settings;
       invoked := [] |}.
Proof.
  intros Hsubs Hnone. rewrite (onEvent_array _ _ _ _ _ _ _ _ _ Hsubs). cbv zeta.
  assert ((fun s => onSubscription_start D s event (getDestinationSettings settings)) <$> l
          = replicate (length l) (Done (Ok [notSubscribed]))) as ->.
  { clear Hsubs. induction Hnone as [|s l (p & Hp & Hv) _ IH]; csimpl; [done|].
    rewrite IH. f_equal. unfold onSubscription_start. by rewrite Hp, Hv. }
  f_equal.
  - assert (Promise_all (Task_promise <$> replicate (length l) (Done (Ok [notSubscribed])))
            = Ok (replicate (length l) [notSubscribed])) as ->.
    { apply Promise_all_Ok. clear. induction l; csimpl; constructor; auto. }
    f_equal. clear. induction l; csimpl; [done|]. by f_equal.
  - apply settleAll_nothing_recorded, Forall_replicate. by eexists.
  - clear. induction l; csimpl; done.
Qed.

(** What a task contributes to the log and to the calls. *)
Lemma task_record_count D settings privateSettings t :
  length (subscriptions (snd (onSubscription_resume D emptyContext settings privateSettings t)))
  = match t with
    | Awaiting _ _ _ run => if isThrow (outcome run) then 0 else 1
    | Done _ => 0
    end.
Proof.
  destruct t as [r | slug started input run]; simpl; [done|].
  by destruct (outcome run).
Qed.

Lemma records_le_invoked D settings privateSettings (tasks : list Task) :
  length (tasks ≫= fun t =>
            subscriptions (snd (onSubscription_resume D emptyContext settings privateSettings t)))
  <= length (omap Task_invocation tasks)
  /\ length (omap Task_invocation tasks) <= length tasks
  /\ (Forall (fun t => isThrow (settlement (Task_promise t)) = false) tasks ->
      length (tasks ≫= fun t =>
                subscriptions (snd (onSubscription_resume D emptyContext settings
                                      privateSettings t)))
      = length (omap Task_invocation tasks)).
Proof.
  induction tasks as [|t tasks (IH1 & IH2 & IH3)]; csimpl; [done|].
  rewrite length_app, task_record_count.
  destruct t as [r | slug started input run]; simpl.
  - split; [done|]. split; [lia|]. intros Hall. apply IH3. by inversion Hall.
  - destruct (isThrow (outcome run)) eqn:E.
    + split; [lia|]. split; [lia|]. inversion 1; simpl in *; congruence.
    + split; [lia|]. split; [lia|]. intros Hall. f_equal. apply IH3. by inversion Hall.
Qed.

(** X4.  However [onEvent] ends, it records no more than it executed and
    executes no more than it was given: the records gained are at most as
    many as the action calls, which are at most as many as the
    subscriptions.  When [onEvent] fulfils, every action call has its
    record. *)
Theorem onEvent_records_and_calls D context event settings privateSettings l :
  getSubscriptions settings = Ok (Some (JArray l)) ->
  let run := onEvent D context event settings privateSettings in
  exists entries,
    subscriptions (context_after run) = subscriptions context ++ entries /\
    length entries <= length (invoked run) /\
    length (invoked run) <= length l /\
    (forall rs, result run = Ok rs -> length entries = length (invoked run)).
Proof.
  intros Hsubs run. subst run. rewrite (onEvent_array _ _ _ _ _ _ _ _ _ Hsubs). cbv zeta.
  cbn [context_after invoked result].
  set (tasks := (fun s => onSubscription_start D s event (getDestinationSettings settings))
                  <$> l).
  eexists. split; [apply settleAll_appends|].
  destruct (records_le_invoked D (getDestinationSettings settings) privateSettings tasks)
    as (H1 & H2 & H3).
  rewrite completionOrder_Permutation.
  split; [done|]. split; [by rewrite H2; unfold tasks; rewrite length_fmap|].
  intros rs Hrs. rewrite completionOrder_Permutation. apply H3.
  destruct (Promise_all (Task_promise <$> tasks)) as [rss|] eqn:E; [|done].
  apply Promise_all_Ok in E. apply Forall2_fmap_l in E.
  apply Forall_forall. intros t Ht.
  apply list_elem_of_lookup in Ht as [i Hi].
  destruct (Forall2_lookup_l _ _ _ _ _ E Hi) as (r & _ & Hr). simpl in Hr. by rewrite Hr.
Qed.

(** X5.  Every record [onEvent] appends names this destination and an
    action that is registered and was really called during this event, and
    its output is the list of step results that call fulfilled with. *)
Theorem onEvent_record_contents D context event settings privateSettings entries x :
  subscriptions (context_after (onEvent D context event settings privateSettings))
  = subscriptions context ++ entries ->
  x ∈ entries ->
  Subscriptions.destination x = name (config D) /\
  exists input action,
    (ToPropertyKey (Subscriptions.action x), input)
      ∈ invoked (onEvent D context event settings privateSettings) /\
    partnerActions D !! ToPropertyKey (Subscriptions.action x) = Some action /\
    outcome (action input) = Ok (Subscriptions.output x) /\
    ExecuteInput.payload input = event.
Proof.
  intros Hlog Hx. revert Hlog. unfold onEvent.
  destruct (getSubscriptions settings) as [[[| | | |l|]|]|]; cbn [context_after invoked];
    try (intros Hlog; apply (f_equal length) in Hlog; rewrite length_app in Hlog;
         destruct entries; [by apply elem_of_nil in Hx | simpl in Hlog; lia]).
  rewrite settleAll_appends. intros <-%app_inv_head.
  apply list_elem_of_bind in Hx as (t & Hx & Ht).
  rewrite completionOrder_Permutation in Ht.
  destruct t as [r | slug started input run]; simpl in Hx; [by apply elem_of_nil in Hx|].
  destruct (outcome run) as [results|] eqn:Hrun; simpl in Hx; [|by apply elem_of_nil in Hx].
  apply list_elem_of_singleton in Hx as ->. simpl. split; [done|].
  pose proof Ht as Ht'.
  apply list_elem_of_fmap in Ht' as (s & Hs & _). symmetry in Hs.
  apply onSubscription_start_Awaiting in Hs as (action & Haction & Hpayload & _ & ->).
  exists input, action. split; [|done].
  apply list_elem_of_omap. by eexists.
Qed.

(** X6.  After [partnerAction slug action], whatever was registered under
    [slug] before, a subscription that accepts the event and names [slug]
    calls [action] once, on the event as payload with the mapping of the
    subscription and the settings it was given, and settles as that call
    does. *)
Theorem partnerAction_dispatch D context subscription event settings privateSettings
    predicate slug mapping (action : Action) :
  getProp subscription "subscribe" = Ok predicate ->
  validate predicate event = Ok true ->
  getProp subscription "partnerAction" = Ok (Some (JString slug)) ->
  getProp subscription "mapping" = Ok mapping ->
  let input := ExecuteInput.mk event mapping settings ∅ in
  let run := onSubscription (partnerAction slug action D) context subscription event settings
               privateSettings in
  invoked run = [(slug, input)] /\ result run = outcome (action input).
Proof.
  intros Hp Hv Hslug Hmapping input run. subst input run.
  rewrite onSubscription_invoked, onSubscription_result.
  unfold onSubscription_start. rewrite Hp, Hv, Hslug. simpl.
  by rewrite lookup_insert_eq, Hmapping.
Qed.


(** X8.  When the predicate library throws on the predicate of a
    subscription, the subscription is neither run nor reported as not
    subscribed: it is rejected with that error, and with it the whole
    event. *)
Theorem onEvent_predicate_error D context event settings privateSettings l s predicate e :
  getSubscriptions settings = Ok (Some (JArray l)) ->
  s ∈ l ->
  getProp s "subscribe" = Ok predicate ->
  validate predicate event = Throw e ->
  onSubscription D context s event (getDestinationSettings settings) privateSettings =
    {| result := Throw e;
       context_after := context;
       settings_after := getDestinationSettings settings;
       invoked := [] |}
  /\ exists e', result (onEvent D context event settings privateSettings) = Throw e'.
Proof.
  intros Hsubs Hs Hp Hv.
  assert (onSubscription_start D s event (getDestinationSettings settings) = Done (Throw e))
    as Hstart by (unfold onSubscription_start; by rewrite Hp, Hv).
  split; [unfold onSubscription; by rewrite Hstart|].
  rewrite (onEvent_array _ _ _ _ _ _ _ _ _ Hsubs). cbv zeta. cbn [result].
  set (start := fun s0 => onSubscription_start D s0 event (getDestinationSettings settings)).
  destruct (Promise_all_Throw (Task_promise <$> (start <$> l)) (Task_promise (start s)) e)
    as (q & e' & _ & _ & ->); [| |by exists e'].
  - apply list_elem_of_fmap_2. by apply list_elem_of_fmap_2.
  - unfold start. by rewrite Hstart.
Qed.

(** The request the extensions build. *)
Lemma composeRequest_all (extensions : list Extension) (context0 : ExecuteInput.t)
    (request : Request) (opts : list JSONObject) :
  Forall2 (fun extension o => extension context0 = Ok o) extensions opts ->
  composeRequest extensions context0 request = Ok (request ++ opts).
Proof.
  intros Hall. revert request.
  induction Hall as [|extension o extensions opts Ho _ IH]; intros request; simpl.
  - by rewrite app_nil_r.
  - rewrite Ho, IH. by rewrite <- (assoc_L (++)).
Qed.

(** X9.  The request extensions are applied in the order of their
    registration, each on the same context: when all of them return
    options, the request is the initial one extended by these options in
    that order; when one of them throws, the extensions after it are not
    consulted and its error is the outcome. *)
Theorem composeRequest_in_order (before after : list Extension) (context0 : ExecuteInput.t)
    (request : Request) (opts : list JSONObject) :
  Forall2 (fun extension o => extension context0 = Ok o) before opts ->
  composeRequest before context0 request = Ok (request ++ opts)
  /\ forall failing e,
       failing context0 = Throw e ->
       composeRequest (before ++ failing :: after) context0 request = Throw e.
Proof.
  intros Hall. split; [by apply composeRequest_all|].
  intros failing e Hfail. revert request.
  induction Hall as [|extension o extensions opts Ho _ IH]; intros request; simpl.
  - by rewrite Hfail.
  - by rewrite Ho, IH.
Qed.

(** X10.  [testCredentials] fulfils exactly when the settings pass the
    validation step, if a schema is set, and the probe, if an
    authentication scheme is set, returns for the request built by the
    extensions.  It issues at most one probe, and none unless validation
    has passed and every extension has returned. *)
Theorem testCredentials_fulfils D settings :
  let context0 := ExecuteInput.mk ∅ None settings ∅ in
  let validated :=
    match settingsSchema D with
    | Some schema => exists r, Validate_executeStep "" "settings" schema context0 = Ok r
    | None => True
    end in
  ((testCredentials D settings).1 = Ok tt <->
   validated /\
   (auth D = None \/
    exists a request r,
      auth D = Some a /\
      composeRequest (requestExtensions D) context0 [gotDefaults] = Ok request /\
      auth_testCredentials (options a) request settings = Ok r))
  /\ (forall probed,
        probed ∈ (testCredentials D settings).2 ->
        (testCredentials D settings).2 = [probed] /\
        validated /\
        probed.2 = settings /\
        composeRequest (requestExtensions D) context0 [gotDefaults] = Ok probed.1).
Proof.
  intros context0 validated. subst context0 validated. unfold testCredentials.
  destruct (settingsSchema D) as [schema|].
  - destruct (Validate_executeStep _ _ _ _) as [r0|e0]; simpl.
    + destruct (auth D) as [a|]; simpl.
      * destruct (composeRequest _ _ _) as [request|e1]; simpl.
        -- destruct (auth_testCredentials _ _ _) as [r|e2] eqn:Hprobe; simpl.
           ++ split.
              ** split; [|done]. intros _. split; [by eexists|]. right. by exists a, request, r.
              ** intros probed ->%list_elem_of_singleton. split; [done|]. split; [by eexists|done].
           ++ split.
              ** split; [done|]. intros (_ & [? | (a' & request' & r' & [= <-] & [= <-] & Hr)]);
                   [done | congruence].
              ** intros probed ->%list_elem_of_singleton. split; [done|]. split; [by eexists|done].
        -- split.
           ++ split; [done|]. by intros (_ & [? | (a' & request' & r' & _ & ? & _)]).
           ++ by intros probed ?%elem_of_nil.
      * split; [split; [intros _; split; [by eexists | by left] | done]|].
        by intros probed ?%elem_of_nil.
    + split.
      * split; [done|]. by intros ([r ?] & _).
      * by intros probed ?%elem_of_nil.
  - simpl. destruct (auth D) as [a|]; simpl.
    + destruct (composeRequest _ _ _) as [request|e1]; simpl.
      * destruct (auth_testCredentials _ _ _) as [r|e2] eqn:Hprobe; simpl.
        -- split.
           ++ split; [|done]. intros _. split; [done|]. right. by exists a, request, r.
           ++ by intros probed ->%list_elem_of_singleton.
        -- split.
           ++ split; [done|]. intros (_ & [? | (a' & request' & r' & [= <-] & [= <-] & Hr)]);
                [done | congruence].
           ++ by intros probed ->%list_elem_of_singleton.
      * split.
        -- split; [done|]. by intros (_ & [? | (a' & request' & r' & _ & ? & _)]).
        -- by intros probed ?%elem_of_nil.
    + split; [split; [intros _; split; [done | by left] | done]|].
      by intros probed ?%elem_of_nil.
Qed.

(** X18.  The list of private settings bears on the records only: with
    another list [onEvent] completes alike and makes the same action calls
    with the same inputs, so an action is handed the settings as they are,
    private ones included. *)
Theorem onEvent_private_settings_only_in_records D context event settings
    privateSettings privateSettings' :
  let run := onEvent D context event settings privateSettings in
  let run' := onEvent D context event settings privateSettings' in
  result run = result run'
  /\ invoked run = invoked run'
  /\ (forall slug input k,
        (slug, input) ∈ invoked run ->
        k <> "subscriptions" ->
        ExecuteInput.settings input !! k = settings !! k).
Proof.
  intros run run'. subst run run'. unfold onEvent.
  destruct (getSubscriptions settings) as [[[| | | |l|]|]|]; cbn [result invoked];
    try (split; [done|]; split; [done|]; by intros ??? ?%elem_of_nil).
  split; [done|]. split; [done|].
  intros slug input k (t & Ht & Hinv)%list_elem_of_omap Hk.
  apply list_elem_of_fmap in Ht as (s & -> & _).
  destruct (onSubscription_start _ _ _ _) as [r | slug' started input' run] eqn:E;
    [done|]. simpl in Hinv. injection Hinv as <- <-.
  apply onSubscription_start_Awaiting in E as (action & _ & _ & -> & _).
  unfold getDestinationSettings. by apply lookup_delete_ne.
Qed.

(** X19.  The records an event adds do not depend on what the context
    already holds, and what it holds is never changed: the log after
    [onEvent] is the log before followed by the records the same event
    gives on a fresh context.  So events handled one after the other on
    one context leave their records one after the other. *)
Theorem onEvent_log_composes D context event settings privateSettings :
  subscriptions (context_after (onEvent D context event settings privateSettings))
  = subscriptions context
    ++ subscriptions (context_after (onEvent D emptyContext event settings privateSettings)).
Proof.
  unfold onEvent.
  destruct (getSubscriptions settings) as [[[| | | |l|]|]|]; cbn [context_after];
    try by rewrite app_nil_r.
  by rewrite !settleAll_appends.
Qed.

(** X21.  The action calls of an event are the calls of its subscriptions,
    one after the other in declaration order: each subscription that
    accepts the event and names a registered action calls it once, also
    when several name the same action. *)
Theorem onEvent_calls_in_declaration_order D context event settings privateSettings l :
  getSubscriptions settings = Ok (Some (JArray l)) ->
  invoked (onEvent D context event settings privateSettings)
  = l ≫= (fun s => invoked (onSubscription D context s event
                               (getDestinationSettings settings) privateSettings)).
Proof.
  intros Hsubs. rewrite (onEvent_array _ _ _ _ _ _ _ _ _ Hsubs). cbv zeta. cbn [invoked].
  clear Hsubs. induction l as [|s l IH]; csimpl; [done|].
  rewrite <- IH, onSubscription_invoked.
  by destruct (Task_invocation _).
Qed.

End RuntimeEdges.


(** * The request context: setters and metrics *)

Module RequestContextProperties.
Import RequestContext.

Lemma toInt32_small (x : Z) : (- 2 ^ 31 <= x < 2 ^ 31)%Z -> toInt32 x = x.
Proof.
  intros Hx. unfold toInt32. rewrite Z.mod_small; lia.
Qed.

(** X13.  The status tags: without a status code, or with the code 0, the
    request counts as a 500 in group 5xx.  Any other code is tagged with
    itself and with the group [d] followed by xx, where [d] is the
    hundredth of the code rounded towards zero and lies between -2^31 and
    2^31 - 1: the hundreds of a positive code (404 is in 4xx), and minus
    the hundreds of its opposite for a negative one (-50 is in 0xx, -150
    in -1xx). *)
Theorem status_tags (fields : Fields) :
  (http_res_status fields = None \/ http_res_status fields = Some 0%Z ->
   take 2 (tags fields) = ["status_code:500"; "status_group:5xx"])
  /\ (forall status d,
        http_res_status fields = Some status ->
        status <> 0%Z ->
        (- 2 ^ 31 <= d < 2 ^ 31)%Z ->
        (0 <= status -> 100 * d <= status < 100 * (d + 1))%Z ->
        (status < 0 -> 100 * (d - 1) < status <= 100 * d)%Z ->
        take 2 (tags fields)
        = ["status_code:" +:+ pretty status; "status_group:" +:+ pretty d +:+ "xx"]).
Proof.
  split.
  - intros Hstatus. unfold tags, statusGroup, statusCode. simpl.
    by destruct Hstatus as [-> | ->].
  - intros status d Hstatus Hnonzero Hd Hpos Hneg.
    unfold tags, statusGroup, statusCode. simpl. rewrite Hstatus.
    destruct (status =? 0)%Z eqn:E; [lia|].
    assert (status ÷ 100 = d)%Z as ->; [|by rewrite toInt32_small by lia].
    destruct (decide (0 <= status)%Z) as [Hs|Hs].
    + rewrite Z.quot_div_nonneg by lia. symmetry.
      apply Z.div_unique with (status - 100 * d)%Z; lia.
    + replace status with (- - status)%Z by lia.
      rewrite Z.quot_opp_l by lia. rewrite Z.quot_div_nonneg by lia.
      assert ((- status) `div` 100 = - d)%Z as ->; [|lia].
      symmetry. apply Z.div_unique with (- status + 100 * d)%Z; lia.
Qed.

Lemma replaceColons_chars (s : string) (c : Ascii.ascii) :
  In c (String.list_ascii_of_string (replaceColons s)) -> c <> Ascii.ascii_of_nat 58.
Proof.
  induction s as [|a s IH]; simpl; [done|].
  intros [<- | Hc]; [|by apply IH].
  destruct (Ascii.eqb a (Ascii.ascii_of_nat 58)) eqn:E; [done|].
  by apply Ascii.eqb_neq in E.
Qed.

Lemma replaceColons_length (s : string) :
  String.length (replaceColons s) = String.length s.
Proof. induction s as [|a s IH]; simpl; [done | by rewrite IH]. Qed.

Lemma replaceColons_id (s : string) :
  (forall c, In c (String.list_ascii_of_string s) -> c <> Ascii.ascii_of_nat 58) ->
  replaceColons s = s.
Proof.
  induction s as [|a s IH]; simpl; [done|]. intros Hs.
  rewrite IH by (intros c Hc; apply Hs; by right).
  destruct (Ascii.eqb a (Ascii.ascii_of_nat 58)) eqn:E; [|done].
  apply Ascii.eqb_eq in E. by destruct (Hs a (or_introl eq_refl)).
Qed.

Lemma replaceColons_get (s : string) (i : nat) :
  String.get i (replaceColons s)
  = (fun c => if Ascii.eqb c (Ascii.ascii_of_nat 58) then Ascii.ascii_of_nat 95 else c)
      <$> String.get i s.
Proof.
  revert i. induction s as [|a s IH]; intros i; simpl; [done|].
  destruct i as [|i]; [done|]. apply IH.
Qed.

(** X14.  The endpoint of the metrics tags is the text made of method,
    space and path with each colon turned into an underscore and every
    other character kept in its place: at each position it holds the
    character of that text, or an underscore where the text has a colon.
    So it holds no colon, has the length of the text, and is the text
    itself when that has no colon. *)
Theorem endpoint_without_colon (fields : Fields) :
  let text := template (http_req_method fields) +:+ " " +:+ template (http_req_path fields) in
  (forall i,
      String.get i (endpoint fields)
      = (fun c => if Ascii.eqb c (Ascii.ascii_of_nat 58) then Ascii.ascii_of_nat 95 else c)
          <$> String.get i text)
  /\ (forall c, In c (String.list_ascii_of_string (endpoint fields)) ->
                c <> Ascii.ascii_of_nat 58)
  /\ String.length (endpoint fields) = String.length text
  /\ ((forall c, In c (String.list_ascii_of_string text) -> c <> Ascii.ascii_of_nat 58) ->
      endpoint fields = text).
Proof.
  intros text. unfold endpoint. fold text. split; [|split; [|split]].
  - intros i. apply replaceColons_get.
  - intros c. apply replaceColons_chars.
  - apply replaceColons_length.
  - apply replaceColons_id.
Qed.


End RequestContextProperties.

(** * The SendGrid contact search *)

Module SendGridProperties.
Import SendGrid.

Lemma sgqlEscape_chars (s : string) (c : Ascii.ascii) :
  In c (String.list_ascii_of_string (sgqlEscape s)) ->
  ~ isQuote c /\ In c (String.list_ascii_of_string s).
Proof.
  induction s as [|a s IH]; simpl; [done|].
  destruct (Ascii.eqb a (Ascii.ascii_of_nat 39)) eqn:E1;
    [|destruct (Ascii.eqb a (Ascii.ascii_of_nat 34)) eqn:E2]; simpl.
  - intros [? ?]%IH. auto.
  - intros [? ?]%IH. auto.
  - intros [<- | [? ?]%IH]; [|auto].
    apply Ascii.eqb_neq in E1, E2. split; [|by left]. by intros [? | ?].
Qed.

Lemma sgqlEscape_id (s : string) :
  (forall c, In c (String.list_ascii_of_string s) -> ~ isQuote c) -> sgqlEscape s = s.
Proof.
  induction s as [|a s IH]; simpl; [done|]. intros Hs.
  rewrite IH by (intros c Hc; apply Hs; by right).
  destruct (Ascii.eqb a (Ascii.ascii_of_nat 39)) eqn:E1.
  { apply Ascii.eqb_eq in E1. destruct (Hs a (or_introl eq_refl)). by left. }
  destruct (Ascii.eqb a (Ascii.ascii_of_nat 34)) eqn:E2; [|done].
  apply Ascii.eqb_eq in E2. destruct (Hs a (or_introl eq_refl)). by right.
Qed.

Lemma sgqlEscape_kept (s : string) :
  String.list_ascii_of_string (sgqlEscape s)
  = filter (fun c => ~ isQuote c) (String.list_ascii_of_string s).
Proof.
  induction s as [|a s IH]; simpl; [done|].
  destruct (Ascii.eqb a (Ascii.ascii_of_nat 39)) eqn:E1;
    [|destruct (Ascii.eqb a (Ascii.ascii_of_nat 34)) eqn:E2]; simpl.
  - apply Ascii.eqb_eq in E1. rewrite filter_cons_False; [done|].
    intros H. apply H. by left.
  - apply Ascii.eqb_eq in E2. rewrite filter_cons_False; [done|].
    intros H. apply H. by right.
  - apply Ascii.eqb_neq in E1, E2. rewrite filter_cons_True; [by rewrite IH|].
    by intros [? | ?].
Qed.

(** X16.  [sgqlEscape] drops every apostrophe and every double quote and
    nothing else: the characters of its result are those of the argument
    that are neither, each as often as in the argument and in the same
    order.  So its result holds no quote, an argument without quotes is
    returned as it is, and escaping twice is escaping once. *)
Theorem sgqlEscape_strips_quotes (s : string) :
  String.list_ascii_of_string (sgqlEscape s)
  = filter (fun c => ~ isQuote c) (String.list_ascii_of_string s)
  /\ (forall c, In c (String.list_ascii_of_string (sgqlEscape s)) ->
                ~ isQuote c /\ In c (String.list_ascii_of_string s))
  /\ ((forall c, In c (String.list_ascii_of_string s) -> ~ isQuote c) -> sgqlEscape s = s)
  /\ sgqlEscape (sgqlEscape s) = sgqlEscape s.
Proof.
  split; [apply sgqlEscape_kept|].
  split; [intros c; apply sgqlEscape_chars|]. split; [apply sgqlEscape_id|].
  apply sgqlEscape_id. intros c Hc. by apply sgqlEscape_chars in Hc as [? _].
Qed.

Lemma apostrophes_app (s1 s2 : string) :
  apostrophes (s1 +:+ s2) = apostrophes s1 + apostrophes s2.
Proof. induction s1 as [|a s1 IH]; simpl; [done | rewrite IH; lia]. Qed.

Lemma apostrophes_sgqlEscape (s : string) : apostrophes (sgqlEscape s) = 0.
Proof.
  induction s as [|a s IH]; simpl; [done|].
  destruct (Ascii.eqb a (Ascii.ascii_of_nat 39)) eqn:E1; simpl; [done|].
  destruct (Ascii.eqb a (Ascii.ascii_of_nat 34)) eqn:E2; simpl; [done|].
  by rewrite E1.
Qed.

(** X17.  Whatever string the payload holds as [email], the search query
    has exactly two apostrophes, the one that opens the literal and the
    one that closes it at the very end: no email can close the literal
    early.  An [email] that is not a string makes the step throw. *)
Theorem searchQuery_literal (payload : JSONObject) :
  (forall email,
      payload !! "email" = Some (JString email) ->
      searchQuery payload = Ok ("email = '" +:+ sgqlEscape email +:+ "'")
      /\ apostrophes ("email = '" +:+ sgqlEscape email +:+ "'") = 2)
  /\ ((forall email, payload !! "email" <> Some (JString email)) ->
      searchQuery payload = Throw TypeError).
Proof.
  split.
  - intros email Hemail. unfold searchQuery. rewrite Hemail. split; [done|].
    rewrite !apostrophes_app, apostrophes_sgqlEscape. reflexivity.
  - intros Hemail. unfold searchQuery.
    destruct (payload !! "email") as [[| | |email| |]|]; try done.
    by destruct (Hemail email).
Qed.

End SendGridProperties.

(** * The basic options of the push command *)

Module PushProperties.
Import Push.

Lemma uniq_elem_of (l : list string) (x : string) : x ∈ uniq l <-> x ∈ l.
Proof.
  induction l as [|y l IH]; simpl; [done|].
  rewrite !elem_of_cons, list_elem_of_filter, IH.
  destruct (decide (x = y)); tauto.
Qed.

Lemma uniq_NoDup (l : list string) : NoDup (uniq l).
Proof.
  induction l as [|y l IH]; simpl; [constructor|].
  constructor; [|by apply NoDup_filter].
  rewrite list_elem_of_filter. by intros [? _].
Qed.

Lemma filter_all (P : string -> Prop) `{!forall x, Decision (P x)} (l : list string) :
  (forall y, y ∈ l -> P y) -> filter P l = l.
Proof.
  induction l as [|x l IH]; intros Hall; [done|].
  rewrite filter_cons_True by (apply Hall; by left).
  f_equal. apply IH. intros y Hy. apply Hall. by right.
Qed.

Lemma uniq_app (l1 l2 : list string) :
  uniq (l1 ++ l2) = uniq l1 ++ filter (fun y => y ∉ l1) (uniq l2).
Proof.
  induction l1 as [|x l1 IH]; simpl.
  - symmetry. apply filter_all. intros y _. apply not_elem_of_nil.
  - f_equal. rewrite IH, filter_app. f_equal.
    rewrite list_filter_filter. apply list_filter_iff.
    intros y. rewrite not_elem_of_cons. tauto.
Qed.

Lemma uniq_NoDup_id (l : list string) : NoDup l -> uniq l = l.
Proof.
  induction 1 as [|x l Hx _ IH]; simpl; [done|].
  rewrite IH. f_equal. apply filter_all. intros y Hy ->. done.
Qed.

(** X20.  The basic options of a destination after a push have no
    duplicate and are exactly the earlier basic options together with the
    keys of the options.  When the earlier ones have no duplicate, they
    stay in front in their order and the new keys follow in the order of
    the options: a push never drops or reorders a basic option. *)
Theorem getBasicOptions_keeps_and_appends (basicOptions optionKeys : list string) :
  NoDup (getBasicOptions basicOptions optionKeys)
  /\ (forall key, key ∈ getBasicOptions basicOptions optionKeys <->
                  key ∈ basicOptions \/ key ∈ optionKeys)
  /\ (NoDup basicOptions ->
      getBasicOptions basicOptions optionKeys
      = basicOptions ++ filter (fun key => key ∉ basicOptions) (uniq optionKeys)).
Proof.
  unfold getBasicOptions. split; [apply uniq_NoDup|]. split.
  - intros key. by rewrite uniq_elem_of, elem_of_app.
  - intros Hbasic. by rewrite uniq_app, uniq_NoDup_id.
Qed.

End PushProperties.

(** * Worked examples *)

Module Scenarios.
Import Examples.

(** Scenario B: a predicate on page events and a track event. *)
Example not_subscribed :
  result (handle destination emptyContext signedUp
            (settingsWith (JArray [subscribe onPage "trackEvent"])) [])
  = Ok [ {[ "output" := JString "not subscribed" ]} ].
Proof. vm_compute. reflexivity. Qed.

(** The text of the examples is read as the list [twoTracks]. *)
Example subscriptionsText_parse :
  JSONReader.parse subscriptionsText = Ok (JArray twoTracks).
Proof. vm_compute. reflexivity. Qed.

(** The results come in declaration order, the records in completion
    order: [quickEvent] settles on tick 1, [trackEvent] on tick 5. *)
Example results_and_records :
  let run := handle destination emptyContext signedUp
               (settingsWith (JArray twoTracks)) [] in
  invoked run
  = [("trackEvent", ExecuteInput.mk signedUp None
                       {[ "apiKey" := JString "s3cr3t"; "region" := JString "eu" ]} ∅);
     ("quickEvent", ExecuteInput.mk signedUp None
                       {[ "apiKey" := JString "s3cr3t"; "region" := JString "eu" ]} ∅)]
  /\ Subscriptions.action <$> subscriptions (context_after run)
     = [Some (JString "quickEvent"); Some (JString "trackEvent")]
  /\ Subscriptions.duration <$> subscriptions (context_after run) = [2; 6].
Proof. vm_compute. done. Qed.

(** Scenario E as the source runs it: the second subscription names an
    action nobody registered.  The call rejects with that error and
    returns no list, although the first subscription ran and was
    recorded. *)
Lemma unknown_action_rejects_the_call :
  let run := handle destination emptyContext signedUp
               (settingsWith (JArray [subscribe onTrack "quickEvent";
                                      subscribe onTrack "noSuchAction"])) [] in
  result run
  = Throw (BadRequest (dquote +:+ "noSuchAction" +:+ dquote +:+ " is not a valid action"))
  /\ ~ (exists rs, result run = Ok rs)
  /\ Subscriptions.action <$> subscriptions (context_after run)
     = [Some (JString "quickEvent")].
Proof.
  vm_compute. split; [reflexivity|]. split; [|reflexivity].
  intros [rs Hrs]. discriminate Hrs.
Qed.

(** Of two failures the one that settles first is reported: the unknown
    slug is found before any [await], the failing request settles on
    tick 3, although it is declared first. *)
Example earliest_failure_is_reported :
  result (handle destination emptyContext signedUp
            (settingsWith (JArray [subscribe onTrack "brokenEvent";
                                   subscribe onTrack "noSuchAction"])) [])
  = Throw (BadRequest (dquote +:+ "noSuchAction" +:+ dquote +:+ " is not a valid action")).
Proof. vm_compute. reflexivity. Qed.

(** Three subscription attempts (one not subscribed, one naming an
    unregistered action, one whose request fails) and not one record. *)
Lemma attempts_without_record :
  let attempts := [subscribe onPage "trackEvent";
                   subscribe onTrack "noSuchAction";
                   subscribe onTrack "brokenEvent"] in
  let run := handle destination emptyContext signedUp (settingsWith (JArray attempts)) [] in
  length attempts = 3
  /\ subscriptions (context_after run) = []
  /\ ~ (length (subscriptions (context_after run)) = length attempts).
Proof. vm_compute. split; [reflexivity|]. split; [reflexivity|]. discriminate. Qed.

(** Settings without the required key: the error of the validation step
    reaches the caller as it is, not as 'Credentials are invalid'. *)
Lemma validation_error_is_surfaced :
  probeCredentials guarded ∅
  = (Throw (Thrown (JObject {[ "missing" := JArray [JString "apiKey"] ]})), [])
  /\ (probeCredentials guarded ∅).1 <> Throw (Error "Credentials are invalid").
Proof. vm_compute. split; [reflexivity | discriminate]. Qed.

(** A number in place of the subscription list: the parsing step raises
    nothing and hands the number on; the error of the call is the
    TypeError that a list which parsed well, but holds a null entry, gives
    too. *)
Lemma not_a_list_is_no_parsing_error :
  getSubscriptions JSONReader.parse (settingsWith (JNumber 5)) = Ok (Some (JNumber 5))
  /\ ~ (exists e, getSubscriptions JSONReader.parse (settingsWith (JNumber 5)) = Throw e)
  /\ result (handle destination emptyContext signedUp (settingsWith (JNumber 5)) [])
     = Throw TypeError
  /\ result (handle destination emptyContext signedUp (settingsWith (JArray [JNull])) [])
     = Throw TypeError.
Proof.
  split; [reflexivity|]. split; [|split; vm_compute; reflexivity].
  intros [e He]. vm_compute in He. discriminate He.
Qed.

End Scenarios.

(** * The theorems at concrete inputs *)

Module Witnesses.
Import Examples.

Lemma onSubscription_not_subscribed_witness :
  getProp (subscribe onPage "trackEvent") "subscribe" = Ok (Some (JString onPage))
  /\ validateType (Some (JString onPage)) signedUp = Ok false
  /\ handleOne destination emptyContext (subscribe onPage "trackEvent") signedUp
       {[ "apiKey" := JString "s3cr3t" ]} []
     = {| result := Ok [ {[ "output" := JString "not subscribed" ]} ];
          context_after := emptyContext;
          settings_after := {[ "apiKey" := JString "s3cr3t" ]};
          invoked := [] |}.
Proof.
  split; [reflexivity|]. split; [reflexivity|].
  apply (onSubscription_not_subscribed validateType redacted destination emptyContext
           (subscribe onPage "trackEvent") signedUp {[ "apiKey" := JString "s3cr3t" ]} []
           (Some (JString onPage))); reflexivity.
Defined.

Lemma onEvent_subscriptions_not_a_list_witness :
  getSubscriptions JSONReader.parse (settingsWith (JNumber 5)) = Ok (Some (JNumber 5))
  /\ handle destination emptyContext signedUp (settingsWith (JNumber 5)) []
     = {| result := Throw TypeError;
          context_after := emptyContext;
          settings_after := settingsWith (JNumber 5);
          invoked := [] |}.
Proof.
  apply (onEvent_subscriptions_not_a_list JSONReader.parse validateType redacted
           destination emptyContext signedUp (settingsWith (JNumber 5)) []).
  - intros text H. vm_compute in H. discriminate H.
  - intros l H. vm_compute in H. discriminate H.
Defined.

Lemma onEvent_string_or_array_witness :
  JSONReader.parse subscriptionsText = Ok (JArray twoTracks)
  /\ (let encoded := handle destination emptyContext signedUp
                       (<["subscriptions" := JString subscriptionsText]> (settingsWith JNull))
                       [JString "apiKey"] in
      let parsed := handle destination emptyContext signedUp
                      (<["subscriptions" := JArray twoTracks]> (settingsWith JNull))
                      [JString "apiKey"] in
      result encoded = result parsed /\
      context_after encoded = context_after parsed /\
      invoked encoded = invoked parsed).
Proof.
  split; [vm_compute; reflexivity|].
  apply (onEvent_string_or_array JSONReader.parse validateType redacted destination
           emptyContext signedUp (settingsWith JNull) [JString "apiKey"]
           subscriptionsText twoTracks).
  vm_compute. reflexivity.
Defined.

Lemma onEvent_declaration_order_witness :
  getSubscriptions JSONReader.parse (settingsWith (JArray twoTracks))
  = Ok (Some (JArray twoTracks))
  /\ (result (handle destination emptyContext signedUp (settingsWith (JArray twoTracks)) [])
      = Ok [ {[ "output" := JString "Signed Up" ]}; {[ "output" := JString "Signed Up" ]} ]
      <-> exists rss,
          Forall2 (fun s r =>
                     result (handleOne destination emptyContext s signedUp
                               (getDestinationSettings (settingsWith (JArray twoTracks))) [])
                     = Ok r) twoTracks rss
          /\ [ {[ "output" := JString "Signed Up" ]}; {[ "output" := JString "Signed Up" ]} ]
             = concat rss).
Proof.
  split; [reflexivity|].
  apply (onEvent_declaration_order JSONReader.parse validateType redacted destination
           emptyContext signedUp (settingsWith (JArray twoTracks)) [] twoTracks).
  reflexivity.
Defined.

Lemma onEvent_failure_aborts_witness :
  let l := [subscribe onTrack "quickEvent"; subscribe onTrack "noSuchAction"] in
  let settings := settingsWith (JArray l) in
  let e := BadRequest (dquote +:+ "noSuchAction" +:+ dquote +:+ " is not a valid action") in
  getSubscriptions JSONReader.parse settings = Ok (Some (JArray l))
  /\ subscribe onTrack "noSuchAction" ∈ l
  /\ result (handleOne destination emptyContext (subscribe onTrack "noSuchAction") signedUp
               (getDestinationSettings settings) []) = Throw e
  /\ ((exists s' e',
          s' ∈ l /\
          result (handleOne destination emptyContext s' signedUp
                    (getDestinationSettings settings) []) = Throw e' /\
          result (handle destination emptyContext signedUp settings []) = Throw e')
      /\ (forall s' x,
            s' ∈ l ->
            x ∈ subscriptions (context_after
                   (handleOne destination emptyContext s' signedUp
                      (getDestinationSettings settings) [])) ->
            x ∈ subscriptions (context_after
                   (handle destination emptyContext signedUp settings [])))).
Proof.
  intros l settings e.
  assert (getSubscriptions JSONReader.parse settings = Ok (Some (JArray l))) as Hsubs
    by reflexivity.
  assert (subscribe onTrack "noSuchAction" ∈ l) as Hin
    by (right; left).
  assert (result (handleOne destination emptyContext (subscribe onTrack "noSuchAction")
                    signedUp (getDestinationSettings settings) []) = Throw e) as Hfail
    by (vm_compute; reflexivity).
  split; [exact Hsubs|]. split; [exact Hin|]. split; [exact Hfail|].
  exact (onEvent_failure_aborts JSONReader.parse validateType redacted destination
           emptyContext signedUp settings [] l (subscribe onTrack "noSuchAction") e
           Hsubs Hin Hfail).
Defined.

Lemma onEvent_instrumentation_witness :
  let l := [subscribe onPage "trackEvent"; subscribe onTrack "quickEvent";
            subscribe onTrack "brokenEvent"] in
  let settings := settingsWith (JArray l) in
  let alone s :=
    handleOne destination emptyContext s signedUp (getDestinationSettings settings) [] in
  getSubscriptions JSONReader.parse settings = Ok (Some (JArray l))
  /\ ((exists entries,
          subscriptions (context_after (handle destination emptyContext signedUp settings []))
          = subscriptions emptyContext ++ entries /\
          entries ≡ₚ l ≫= (fun s => subscriptions (context_after (alone s))))
      /\ (forall s,
            length (subscriptions (context_after (alone s)))
            = match invoked (alone s), result (alone s) with
              | _ :: _, Ok _ => 1
              | _, _ => 0
              end)).
Proof.
  intros l settings alone.
  assert (getSubscriptions JSONReader.parse settings = Ok (Some (JArray l))) as Hsubs
    by reflexivity.
  split; [exact Hsubs|].
  exact (onEvent_instrumentation JSONReader.parse validateType redacted destination
           emptyContext signedUp settings [] l Hsubs).
Defined.

Lemma onEvent_records_redacted_witness :
  let settings := settingsWith (JArray twoTracks) in
  let run := handle destination emptyContext signedUp settings [JString "apiKey"] in
  exists x entries,
    subscriptions (context_after run) = subscriptions emptyContext ++ entries
    /\ x ∈ entries
    /\ JString "apiKey" ∈ [JString "apiKey"]
    /\ getDestinationSettings settings !! "apiKey" = Some (JString "s3cr3t")
    /\ ExecuteInput.settings (Subscriptions.input x) !! "apiKey" = Some redacted.
Proof.
  intros settings run.
  destruct (subscriptions (context_after run)) as [|x entries] eqn:Hlog;
    [vm_compute in Hlog; discriminate Hlog|].
  exists x, (x :: entries).
  assert (x ∈ x :: entries) as Hx by left.
  assert (JString "apiKey" ∈ [JString "apiKey"]) as Hk by left.
  split; [reflexivity|]. split; [exact Hx|]. split; [exact Hk|].
  split; [reflexivity|].
  exact (onEvent_records_redacted JSONReader.parse validateType redacted destination
           emptyContext signedUp settings [JString "apiKey"] (x :: entries) x "apiKey"
           Hlog Hx Hk).
Defined.

Lemma onEvent_destination_settings_witness :
  let settings := settingsWith (JArray twoTracks) in
  let run := handle destination emptyContext signedUp settings [] in
  let input := ExecuteInput.mk signedUp None
                 {[ "apiKey" := JString "s3cr3t"; "region" := JString "eu" ]} ∅ in
  ("trackEvent", input) ∈ invoked run
  /\ ExecuteInput.settings input = delete "subscriptions" settings
  /\ ExecuteInput.settings input !! "subscriptions" = None
  /\ ExecuteInput.settings input !! "apiKey" = settings !! "apiKey"
  /\ settings_after run = settings.
Proof.
  intros settings run input.
  assert (("trackEvent", input) ∈ invoked run) as Hin by left.
  destruct (onEvent_destination_settings JSONReader.parse validateType redacted destination
              emptyContext signedUp settings []) as [Hhanded Hsame].
  destruct (Hhanded "trackEvent" input Hin) as (Heq & Hnone & Hother).
  split; [exact Hin|]. split; [exact Heq|]. split; [exact Hnone|].
  split; [apply Hother; discriminate | exact Hsame].
Defined.

Lemma testCredentials_failures_witness :
  probeCredentials guarded {[ "apiKey" := JString "guess" ]}
  = (Throw (Error "Credentials are invalid"),
     [([gotDefaults], {[ "apiKey" := JString "guess" ]})])
  /\ probeCredentials guarded ∅
     = (Throw (Thrown (JObject {[ "missing" := JArray [JString "apiKey"] ]})), [])
  /\ probeCredentials misconfigured ∅ = (Throw (Thrown (JString "no region")), []).
Proof.
  split; [|split].
  - destruct (testCredentials_failures validateRequired guarded
                {[ "apiKey" := JString "guess" ]}) as (Hprobe & _ & _).
    apply (Hprobe {| type := "apiKey"; options := {| auth_testCredentials := probe |} |}
             [gotDefaults] (Thrown (JString "401 Unauthorized: unknown key")));
      [by eexists | reflexivity | reflexivity | reflexivity].
  - destruct (testCredentials_failures validateRequired guarded ∅) as (_ & Hvalid & _).
    apply (Hvalid (JObject {[ "required" := JArray [JString "apiKey"] ]}));
      reflexivity.
  - destruct (testCredentials_failures validateRequired misconfigured ∅) as (_ & _ & Hext).
    eapply Hext; [exact I | reflexivity | reflexivity].
Defined.

Lemma testCredentials_nothing_configured_witness :
  settingsSchema destination = None
  /\ auth destination = None
  /\ probeCredentials destination {[ "apiKey" := JString "anything" ]} = (Ok tt, []).
Proof.
  split; [reflexivity|]. split; [reflexivity|].
  apply (testCredentials_nothing_configured validateRequired destination
           {[ "apiKey" := JString "anything" ]}); reflexivity.
Defined.

End Witnesses.


(** * The further properties at concrete inputs *)

Module MoreWitnesses.
Import Examples MoreExamples.

Lemma onEvent_malformed_text_witness :
  settingsWith (JString brokenText) !! "subscriptions" = Some (JString brokenText)
  /\ JSONReader.parse brokenText = Throw SyntaxError
  /\ handle destination emptyContext signedUp (settingsWith (JString brokenText)) []
     = {| result := Throw SyntaxError;
          context_after := emptyContext;
          settings_after := settingsWith (JString brokenText);
          invoked := [] |}.
Proof.
  assert (settingsWith (JString brokenText) !! "subscriptions" = Some (JString brokenText))
    as Htext by reflexivity.
  assert (JSONReader.parse brokenText = Throw SyntaxError) as Hparse
    by (vm_compute; reflexivity).
  split; [exact Htext|]. split; [exact Hparse|].
  exact (onEvent_malformed_text JSONReader.parse validateType redacted destination
           emptyContext signedUp (settingsWith (JString brokenText)) [] brokenText SyntaxError
           Htext Hparse).
Defined.

Lemma onEvent_text_not_a_list_witness :
  settingsWith (JString twiceEncoded) !! "subscriptions" = Some (JString twiceEncoded)
  /\ JSONReader.parse twiceEncoded = Ok (JString "[]")
  /\ handle destination emptyContext signedUp (settingsWith (JString twiceEncoded)) []
     = {| result := Throw TypeError;
          context_after := emptyContext;
          settings_after := settingsWith (JString twiceEncoded);
          invoked := [] |}.
Proof.
  assert (settingsWith (JString twiceEncoded) !! "subscriptions" = Some (JString twiceEncoded))
    as Htext by reflexivity.
  assert (JSONReader.parse twiceEncoded = Ok (JString "[]")) as Hparse
    by (vm_compute; reflexivity).
  split; [exact Htext|]. split; [exact Hparse|].
  apply (onEvent_text_not_a_list JSONReader.parse validateType redacted destination
           emptyContext signedUp (settingsWith (JString twiceEncoded)) [] twiceEncoded
           (JString "[]") Htext Hparse).
  intros l H. discriminate H.
Defined.

Lemma onEvent_nothing_subscribed_witness :
  let l := [subscribe onPage "trackEvent"; subscribe onPage "quickEvent"] in
  getSubscriptions JSONReader.parse (settingsWith (JArray l)) = Ok (Some (JArray l))
  /\ handle destination emptyContext signedUp (settingsWith (JArray l)) []
     = {| result := Ok (replicate 2 {[ "output" := JString "not subscribed" ]});
          context_after := emptyContext;
          settings_after := settingsWith (JArray l);
          invoked := [] |}.
Proof.
  intros l.
  assert (getSubscriptions JSONReader.parse (settingsWith (JArray l)) = Ok (Some (JArray l)))
    as Hsubs by reflexivity.
  split; [exact Hsubs|].
  apply (onEvent_nothing_subscribed JSONReader.parse validateType redacted destination
           emptyContext signedUp (settingsWith (JArray l)) [] l Hsubs).
  repeat constructor; exists (Some (JString onPage)); split; reflexivity.
Defined.

Lemma onEvent_records_and_calls_witness :
  let l := [subscribe onPage "trackEvent"; subscribe onTrack "quickEvent";
            subscribe onTrack "brokenEvent"] in
  let run := handle destination emptyContext signedUp (settingsWith (JArray l)) [] in
  getSubscriptions JSONReader.parse (settingsWith (JArray l)) = Ok (Some (JArray l))
  /\ exists entries,
       subscriptions (context_after run) = subscriptions emptyContext ++ entries /\
       length entries <= length (invoked run) /\
       length (invoked run) <= length l /\
       (forall rs, result run = Ok rs -> length entries = length (invoked run)).
Proof.
  intros l run.
  assert (getSubscriptions JSONReader.parse (settingsWith (JArray l)) = Ok (Some (JArray l)))
    as Hsubs by reflexivity.
  split; [exact Hsubs|].
  exact (onEvent_records_and_calls JSONReader.parse validateType redacted destination
           emptyContext signedUp (settingsWith (JArray l)) [] l Hsubs).
Defined.

Lemma onEvent_record_contents_witness :
  let run := handle destination emptyContext signedUp (settingsWith (JArray twoTracks)) [] in
  exists x entries,
    subscriptions (context_after run) = subscriptions emptyContext ++ entries
    /\ x ∈ entries
    /\ Subscriptions.destination x = "Example"
    /\ exists input action,
         (ToPropertyKey (Subscriptions.action x), input) ∈ invoked run /\
         partnerActions destination !! ToPropertyKey (Subscriptions.action x) = Some action /\
         outcome (action input) = Ok (Subscriptions.output x) /\
         ExecuteInput.payload input = signedUp.
Proof.
  intros run.
  destruct (subscriptions (context_after run)) as [|x entries] eqn:Hlog;
    [vm_compute in Hlog; discriminate Hlog|].
  exists x, (x :: entries).
  assert (x ∈ x :: entries) as Hx by left.
  split; [reflexivity|]. split; [exact Hx|].
  exact (onEvent_record_contents JSONReader.parse validateType redacted destination
           emptyContext signedUp (settingsWith (JArray twoTracks)) [] (x :: entries) x
           Hlog Hx).
Defined.

Lemma partnerAction_dispatch_witness :
  let subscription := subscribe onTrack "trackEvent" in
  let settings : JSONObject := {[ "apiKey" := JString "s3cr3t" ]} in
  let input := ExecuteInput.mk signedUp None settings ∅ in
  let run := handleOne (partnerAction "trackEvent" (fails 2) destination) emptyContext
               subscription signedUp settings [] in
  getProp subscription "subscribe" = Ok (Some (JString onTrack))
  /\ validateType (Some (JString onTrack)) signedUp = Ok true
  /\ getProp subscription "partnerAction" = Ok (Some (JString "trackEvent"))
  /\ getProp subscription "mapping" = Ok None
  /\ invoked run = [("trackEvent", input)]
  /\ result run = outcome (fails 2 input).
Proof.
  intros subscription settings input run.
  assert (getProp subscription "subscribe" = Ok (Some (JString onTrack))) as Hp
    by reflexivity.
  assert (validateType (Some (JString onTrack)) signedUp = Ok true) as Hv by reflexivity.
  assert (getProp subscription "partnerAction" = Ok (Some (JString "trackEvent"))) as Hslug
    by reflexivity.
  assert (getProp subscription "mapping" = Ok None) as Hmapping by reflexivity.
  split; [exact Hp|]. split; [exact Hv|]. split; [exact Hslug|]. split; [exact Hmapping|].
  exact (partnerAction_dispatch validateType redacted destination emptyContext subscription
           signedUp settings [] (Some (JString onTrack)) "trackEvent" None (fails 2)
           Hp Hv Hslug Hmapping).
Defined.


Lemma onEvent_predicate_error_witness :
  let s := subscribe "kind is track" "trackEvent" in
  let l := [subscribe onTrack "quickEvent"; s] in
  let settings := settingsWith (JArray l) in
  let e := Thrown (JString "malformed predicate") in
  getSubscriptions JSONReader.parse settings = Ok (Some (JArray l))
  /\ s ∈ l
  /\ getProp s "subscribe" = Ok (Some (JString "kind is track"))
  /\ validateType (Some (JString "kind is track")) signedUp = Throw e
  /\ handleOne destination emptyContext s signedUp (getDestinationSettings settings) []
     = {| result := Throw e;
          context_after := emptyContext;
          settings_after := getDestinationSettings settings;
          invoked := [] |}
  /\ exists e', result (handle destination emptyContext signedUp settings []) = Throw e'.
Proof.
  intros s l settings e.
  assert (getSubscriptions JSONReader.parse settings = Ok (Some (JArray l))) as Hsubs
    by reflexivity.
  assert (s ∈ l) as Hs by (right; left).
  assert (getProp s "subscribe" = Ok (Some (JString "kind is track"))) as Hp by reflexivity.
  assert (validateType (Some (JString "kind is track")) signedUp = Throw e) as Hv
    by reflexivity.
  split; [exact Hsubs|]. split; [exact Hs|]. split; [exact Hp|]. split; [exact Hv|].
  exact (onEvent_predicate_error JSONReader.parse validateType redacted destination
           emptyContext signedUp settings [] l s (Some (JString "kind is track")) e
           Hsubs Hs Hp Hv).
Defined.

Lemma composeRequest_in_order_witness :
  let context0 := ExecuteInput.mk ∅ None {[ "apiKey" := JString "s3cr3t" ]} ∅ in
  let opts : list JSONObject :=
    [ {[ "headers" := JObject {[ "user-agent" := JString "Segment" ]} ]};
      {[ "headers" := JObject {[ "authorization" := JString "s3cr3t" ]} ]} ] in
  Forall2 (fun extension o => extension context0 = Ok o) [withUserAgent; withKey] opts
  /\ composeRequest [withUserAgent; withKey] context0 [gotDefaults] = Ok ([gotDefaults] ++ opts)
  /\ composeRequest ([withUserAgent; withKey] ++ withoutRegion :: [withKey]) context0
       [gotDefaults]
     = Throw (Thrown (JString "no region")).
Proof.
  intros context0 opts.
  assert (Forall2 (fun extension o => extension context0 = Ok o) [withUserAgent; withKey] opts)
    as Hall by (repeat constructor).
  split; [exact Hall|].
  destruct (composeRequest_in_order [withUserAgent; withKey] [withKey] context0 [gotDefaults]
              opts Hall) as [Hok Hfail].
  split; [exact Hok|].
  apply (Hfail withoutRegion (Thrown (JString "no region"))). reflexivity.
Defined.

Lemma testCredentials_fulfils_witness :
  (probeCredentials guarded {[ "apiKey" := JString "s3cr3t" ]}).1 = Ok tt
  /\ (probeCredentials guarded {[ "apiKey" := JString "s3cr3t" ]}).2
     = [([gotDefaults], {[ "apiKey" := JString "s3cr3t" ]})].
Proof.
  destruct (testCredentials_fulfils validateRequired guarded {[ "apiKey" := JString "s3cr3t" ]})
    as [Hiff Hprobe].
  split.
  - apply Hiff. split; [by eexists|]. right.
    by exists {| type := "apiKey"; options := {| auth_testCredentials := probe |} |},
              [gotDefaults], "200 OK".
  - apply (Hprobe ([gotDefaults], {[ "apiKey" := JString "s3cr3t" ]})). left.
Defined.

Lemma status_tags_witness :
  take 2 (RequestContext.tags notFound) = ["status_code:404"; "status_group:4xx"]
  /\ take 2 (RequestContext.tags RequestContext.initial)
     = ["status_code:500"; "status_group:5xx"]
  /\ take 2 (RequestContext.tags
               (RequestContext.set RequestContext.Field.http_res_status (Some (-150)%Z)
                  RequestContext.initial))
     = ["status_code:-150"; "status_group:-1xx"].
Proof.
  split; [|split].
  - apply (proj2 (RequestContextProperties.status_tags notFound) 404%Z 4%Z);
      [reflexivity | discriminate | lia | lia | lia].
  - apply (proj1 (RequestContextProperties.status_tags RequestContext.initial)).
    left. reflexivity.
  - apply (proj2 (RequestContextProperties.status_tags
                    (RequestContext.set RequestContext.Field.http_res_status
                       (Some (-150)%Z) RequestContext.initial)) (-150)%Z (-1)%Z);
      [reflexivity | discriminate | lia | lia | lia].
Defined.

Lemma endpoint_without_colon_witness :
  RequestContext.endpoint notFound = "GET /users/_id"
  /\ String.get 11 (RequestContext.endpoint notFound) = Some (Ascii.ascii_of_nat 95)
  /\ String.length (RequestContext.endpoint notFound) = 14
  /\ RequestContext.endpoint RequestContext.initial = "undefined undefined".
Proof.
  split; [reflexivity|].
  destruct (RequestContextProperties.endpoint_without_colon notFound)
    as (Hget & _ & Hlength & _).
  destruct (RequestContextProperties.endpoint_without_colon RequestContext.initial)
    as (_ & _ & _ & Hsame).
  split; [rewrite (Hget 11); reflexivity|].
  split; [exact Hlength|].
  apply Hsame. intros c Hc. vm_compute in Hc.
  repeat (destruct Hc as [<- | Hc]; [discriminate|]). destruct Hc.
Defined.

Lemma sgqlEscape_strips_quotes_witness :
  SendGrid.sgqlEscape "x@x.com" = "x@x.com"
  /\ SendGrid.sgqlEscape (SendGrid.sgqlEscape "x@x.com' or email like '%@%")
     = SendGrid.sgqlEscape "x@x.com' or email like '%@%"
  /\ String.list_ascii_of_string (SendGrid.sgqlEscape "it's")
     = filter (fun c => ~ SendGrid.isQuote c) (String.list_ascii_of_string "it's").
Proof.
  destruct (SendGridProperties.sgqlEscape_strips_quotes "x@x.com") as (_ & _ & Hsame & _).
  destruct (SendGridProperties.sgqlEscape_strips_quotes "x@x.com' or email like '%@%")
    as (_ & _ & _ & Hidem).
  destruct (SendGridProperties.sgqlEscape_strips_quotes "it's") as (Hkept & _).
  split; [|split; [exact Hidem | exact Hkept]].
  apply Hsame. intros c Hc. vm_compute in Hc.
  repeat (destruct Hc as [<- | Hc]; [intros [H|H]; discriminate H|]). destruct Hc.
Defined.

Lemma searchQuery_literal_witness :
  let payload : JSONObject := {[ "email" := JString "x@x.com' or email like '%@%" ]} in
  SendGrid.searchQuery payload = Ok "email = 'x@x.com or email like %@%'"
  /\ SendGrid.apostrophes "email = 'x@x.com or email like %@%'" = 2
  /\ SendGrid.searchQuery {[ "email" := JNumber 7 ]} = Throw TypeError.
Proof.
  intros payload.
  destruct (SendGridProperties.searchQuery_literal payload) as [Hquery _].
  destruct (Hquery "x@x.com' or email like '%@%" eq_refl) as [Hok Htwo].
  split; [exact Hok|]. split; [exact Htwo|].
  apply (proj2 (SendGridProperties.searchQuery_literal {[ "email" := JNumber 7 ]})).
  intros email H. vm_compute in H. discriminate H.
Defined.

Lemma getBasicOptions_keeps_and_appends_witness :
  NoDup ["apiKey"; "region"]
  /\ Push.getBasicOptions ["apiKey"; "region"] ["region"; "metadata"; "actiontrack"; "metadata"]
     = ["apiKey"; "region"; "metadata"; "actiontrack"].
Proof.
  assert (NoDup ["apiKey"; "region"]) as Hbasic.
  { apply (bool_decide_unpack (NoDup ["apiKey"; "region"])). vm_compute. exact I. }
  split; [exact Hbasic|].
  destruct (PushProperties.getBasicOptions_keeps_and_appends ["apiKey"; "region"]
              ["region"; "metadata"; "actiontrack"; "metadata"]) as (_ & _ & Hprefix).
  rewrite (Hprefix Hbasic). vm_compute. reflexivity.
Defined.

Lemma onEvent_calls_in_declaration_order_witness :
  let l := [subscribe onTrack "quickEvent"; subscribe onPage "trackEvent";
            subscribe onTrack "quickEvent"] in
  let settings := settingsWith (JArray l) in
  getSubscriptions JSONReader.parse settings = Ok (Some (JArray l))
  /\ invoked (handle destination emptyContext signedUp settings [])
     = l ≫= (fun s => invoked (handleOne destination emptyContext s signedUp
                                 (getDestinationSettings settings) []))
  /\ fst <$> invoked (handle destination emptyContext signedUp settings [])
     = ["quickEvent"; "quickEvent"].
Proof.
  intros l settings.
  assert (getSubscriptions JSONReader.parse settings = Ok (Some (JArray l))) as Hsubs
    by reflexivity.
  split; [exact Hsubs|]. split; [|reflexivity].
  exact (onEvent_calls_in_declaration_order JSONReader.parse validateType redacted
           destination emptyContext signedUp settings [] l Hsubs).
Defined.

End MoreWitnesses.
